(** * Calculator agent: a shallow embedding of [Calculator_agent.py]

    The development follows the sections of the Python module: the
    text primitives and the regular expressions the module relies on,
    the safe expression evaluator, the unit converter, the intent
    classifier, the handlers and the dispatcher.

    Modelling conventions.
    - A Python [str] is a list of characters, [str]; characters are
      8-bit and the text primitives treat the ASCII range as Python
      does.  Keys, messages and identifiers are [string]s.
    - A Python [int] is a [Z]; a Python [float] is an exact rational
      kept in lowest terms (no rounding, overflow, infinities or NaN).
    - A raised exception is the [Raise] outcome of a computation. *)

From Stdlib Require Import String Ascii List Bool Arith ZArith QArith Lia.
From Stdlib Require Import Qabs Qround DecimalString Permutation Sorted.
Import ListNotations.

Set Implicit Arguments.

Local Open Scope string_scope.
Local Open Scope list_scope.
Local Open Scope Z_scope.

(** ** Characters and text primitives *)

Definition str := list ascii.

Definition code (c : ascii) : nat := nat_of_ascii c.

Definition in_range (lo hi : nat) (c : ascii) : bool :=
  (lo <=? code c)%nat && (code c <=? hi)%nat.

(** [\d] *)
Definition is_digit (c : ascii) : bool := in_range 48 57 c.

Definition is_upper (c : ascii) : bool := in_range 65 90 c.
Definition is_lower (c : ascii) : bool := in_range 97 122 c.

(** [[a-zA-Z]] *)
Definition is_alpha (c : ascii) : bool := is_lower c || is_upper c.

(** [\w]: letters, digits and the underscore *)
Definition is_word (c : ascii) : bool :=
  is_alpha c || is_digit c || (code c =? 95)%nat.

(** [\s] and the characters removed by [str.strip()]: tab, line feed,
    vertical tab, form feed, carriage return, the four separators
    0x1c-0x1f and the space. *)
Definition is_space (c : ascii) : bool :=
  in_range 9 13 c || in_range 28 31 c || (code c =? 32)%nat.

Definition lower_char (c : ascii) : ascii :=
  if is_upper c then ascii_of_nat (code c + 32) else c.

(** [s.lower()] *)
Definition lower (s : str) : str := map lower_char s.

Fixpoint lstrip (s : str) : str :=
  match s with
  | c :: s' => if is_space c then lstrip s' else s
  | [] => []
  end.

Definition rstrip (s : str) : str := rev (lstrip (rev s)).

(** [s.strip()] *)
Definition strip (s : str) : str := rstrip (lstrip s).

Definition ascii_eqb (a b : ascii) : bool := Ascii.eqb a b.

(** [s.startswith(p)] *)
Fixpoint startswith (p s : str) : bool :=
  match p, s with
  | [], _ => true
  | a :: p', b :: s' => ascii_eqb a b && startswith p' s'
  | _ :: _, [] => false
  end.

(** [needle in s] *)
Fixpoint contains (needle s : str) : bool :=
  startswith needle s ||
  match s with
  | [] => false
  | _ :: s' => contains needle s'
  end.

(** [s.replace(old, new)] for a non-empty [old]: occurrences are
    replaced from left to right and do not overlap. *)
Fixpoint replace_fuel (fuel : nat) (old new s : str) : str :=
  match fuel with
  | O => s
  | S fuel' =>
    match s with
    | [] => []
    | c :: s' =>
      if startswith old s
      then new ++ replace_fuel fuel' old new (skipn (length old) s)
      else c :: replace_fuel fuel' old new s'
    end
  end.

Definition replace (old new s : str) : str :=
  replace_fuel (length s) old new s.

Definition str_eqb (a b : str) : bool :=
  if list_eq_dec ascii_dec a b then true else false.

(** String literals of the source are written [$"..."]. *)
Notation "$ s" := (list_ascii_of_string s) (at level 1, format "$ s").

(** ** Regular expressions

    The patterns of the module use literals, character classes,
    alternation, the greedy quantifiers [?], [*] and [+], capturing
    groups, the word boundary [\b] and the anchor [^].  The matcher
    is a backtracking matcher in continuation-passing style, so that
    greedy quantifiers give back characters exactly as [re] does. *)

Inductive regex : Type :=
| Eps
| Chr (c : ascii)
| Cls (p : ascii -> bool)
| Cat (r1 r2 : regex)
| Alt (r1 r2 : regex)
| Opt (r : regex)
| Star (r : regex)
| Grp (i : nat) (r : regex)
| WordB
| Bol.

(** [r+] is [r] followed by [r*]. *)
Definition Plus (r : regex) : regex := Cat r (Star r).

(** A literal word. *)
Fixpoint Lit (w : str) : regex :=
  match w with
  | [] => Eps
  | c :: w' => Cat (Chr c) (Lit w')
  end.

(** Captured groups, most recent first. *)
Definition captures := list (nat * str).

Fixpoint group (i : nat) (caps : captures) : option str :=
  match caps with
  | [] => None
  | (j, s) :: caps' => if (i =? j)%nat then Some s else group i caps'
  end.

(** A position in the subject: the characters before it (nearest
    first) and the characters from it on. *)
Record pos := Pos { before : str; after : str }.

Definition at_boundary (p : pos) : bool :=
  let l := match before p with c :: _ => is_word c | [] => false end in
  let r := match after p with c :: _ => is_word c | [] => false end in
  xorb l r.

Section Matcher.
Variable A : Type.

Definition cont := pos -> captures -> option A.

Definition orelse (x : option A) (y : unit -> option A) : option A :=
  match x with
  | Some a => Some a
  | None => y tt
  end.

Fixpoint rmatch (r : regex) (p : pos) (caps : captures) (k : cont)
  : option A :=
  match r with
  | Eps => k p caps
  | Chr c =>
    match after p with
    | x :: rest =>
      if ascii_eqb x c then k (Pos (x :: before p) rest) caps else None
    | [] => None
    end
  | Cls f =>
    match after p with
    | x :: rest =>
      if f x then k (Pos (x :: before p) rest) caps else None
    | [] => None
    end
  | Cat r1 r2 =>
    rmatch r1 p caps (fun p' caps' => rmatch r2 p' caps' k)
  | Alt r1 r2 =>
    orelse (rmatch r1 p caps k) (fun _ => rmatch r2 p caps k)
  | Opt r1 =>
    orelse (rmatch r1 p caps k) (fun _ => k p caps)
  | Star r1 =>
    (fix loop (fuel : nat) (p : pos) (caps : captures) : option A :=
       match fuel with
       | O => k p caps
       | S fuel' =>
         orelse
           (rmatch r1 p caps (fun p' caps' =>
              if (length (after p') <? length (after p))%nat
              then loop fuel' p' caps' else None))
           (fun _ => k p caps)
       end) (length (after p)) p caps
  | Grp i r1 =>
    rmatch r1 p caps (fun p' caps' =>
      k p' ((i, firstn (length (after p) - length (after p')) (after p))
            :: caps'))
  | WordB => if at_boundary p then k p caps else None
  | Bol => match before p with [] => k p caps | _ :: _ => None end
  end.
End Matcher.

(** A match object: the position where the match starts, the position
    where it ends, and the groups. *)
Record rmatch_obj := MatchObj {
  m_start : pos;
  m_end : pos;
  m_groups : captures
}.

(** [re.match] at a given position of the subject. *)
Definition match_at (r : regex) (p : pos) : option rmatch_obj :=
  rmatch r p [] (fun p' caps => Some (MatchObj p p' caps)).

(** The text of the whole match, [m.group(0)]. *)
Definition m_text (m : rmatch_obj) : str :=
  firstn (length (after (m_start m)) - length (after (m_end m)))
         (after (m_start m)).

(** [re.search(r, s)] scanning from position [p]: the leftmost
    position at which the pattern matches. *)
Fixpoint search_from (r : regex) (bef aft : str) : option rmatch_obj :=
  match match_at r (Pos bef aft) with
  | Some m => Some m
  | None =>
    match aft with
    | [] => None
    | c :: aft' => search_from r (c :: bef) aft'
    end
  end.

Definition re_search (r : regex) (s : str) : option rmatch_obj :=
  search_from r [] s.

Definition found (m : option rmatch_obj) : bool :=
  match m with Some _ => true | None => false end.

(** [re.findall(r, s)] for a pattern without groups: the texts of the
    successive non-overlapping matches, left to right.  After an empty
    match the scan moves on by one character. *)
Fixpoint findall_from (fuel : nat) (r : regex) (bef aft : str) : list str :=
  match fuel with
  | O => []
  | S fuel' =>
    match search_from r bef aft with
    | None => []
    | Some m =>
      let e := m_end m in
      if (length (after e) <? length (after (m_start m)))%nat
      then m_text m :: findall_from fuel' r (before e) (after e)
      else
        m_text m ::
        match after e with
        | [] => []
        | c :: rest => findall_from fuel' r (c :: before e) rest
        end
    end
  end.

Definition re_findall (r : regex) (s : str) : list str :=
  findall_from (S (length s)) r [] s.

(** [re.sub(r, "", s)] for a pattern anchored with [^]: the pattern
    can only match at the start of the subject, so at most one match
    is removed. *)
Definition re_sub_anchored (r : regex) (s : str) : str :=
  match match_at r (Pos [] s) with
  | Some m => after (m_end m)
  | None => s
  end.

(** ** Python values, exceptions and computations *)

(** The numbers the evaluator computes with. *)
Inductive value : Type :=
| VInt (z : Z)
| VFloat (q : Q).

(** Exceptions, by class.  The messages built by the module are kept
    word for word, except that the address in the printed form of a
    node is left out; the messages of the library are representative. *)
Inductive exc : Type :=
| SyntaxError (msg : string)
| ValueError (msg : string)
| TypeError (msg : string)
| KeyError (msg : string)
| AttributeError (msg : string)
| ZeroDivisionError (msg : string)
| StatisticsError (msg : string).

(** The outcome of a call: a returned value or a raised exception. *)
Inductive outcome (A : Type) : Type :=
| Return (a : A)
| Raise (e : exc).

Arguments Return {A} a.
Arguments Raise {A} e.

Definition obind {A B} (x : outcome A) (f : A -> outcome B) : outcome B :=
  match x with
  | Return a => f a
  | Raise e => Raise e
  end.

(** A float is kept in lowest terms, so that equal floats are equal
    terms. *)
Definition fl (q : Q) : value := VFloat (Qred q).

Definition to_Q (v : value) : Q :=
  match v with
  | VInt z => inject_Z z
  | VFloat q => q
  end.

Definition Qzero (q : Q) : bool := (Qnum q =? 0)%Z.

(** *** The functions of the [operator] module used by the table *)

Definition arith (fz : Z -> Z -> Z) (fq : Q -> Q -> Q) (a b : value)
  : outcome value :=
  match a, b with
  | VInt x, VInt y => Return (VInt (fz x y))
  | _, _ => Return (fl (fq (to_Q a) (to_Q b)))
  end.

Definition op_add := arith Z.add Qplus.
Definition op_sub := arith Z.sub Qminus.
Definition op_mul := arith Z.mul Qmult.

Definition op_truediv (a b : value) : outcome value :=
  if Qzero (to_Q b) then Raise (ZeroDivisionError "division by zero")
  else Return (fl (to_Q a / to_Q b)%Q).

Definition op_mod (a b : value) : outcome value :=
  if Qzero (to_Q b) then Raise (ZeroDivisionError "modulo by zero")
  else
    match a, b with
    | VInt x, VInt y => Return (VInt (x mod y))
    | _, _ =>
      let x := to_Q a in
      let y := to_Q b in
      Return (fl (x - y * inject_Z (Qfloor (x / y)))%Q)
    end.

Section Numerics.
(** [x ** y] for a float exponent [y]: the result is in general not
    rational (and may be complex), so it is left to the caller. *)
Variable real_pow : Q -> Q -> outcome value.

Definition op_pow (a b : value) : outcome value :=
  match b with
  | VInt y =>
    match a with
    | VInt x =>
      if (0 <=? y)%Z then Return (VInt (x ^ y))
      else if (x =? 0)%Z
           then Raise (ZeroDivisionError
                         "0.0 cannot be raised to a negative power")
           else Return (fl (Qpower (inject_Z x) y))
    | VFloat x =>
      if (y <? 0)%Z && Qzero x
      then Raise (ZeroDivisionError
                    "0.0 cannot be raised to a negative power")
      else Return (fl (Qpower x y))
    end
  | VFloat y => real_pow (to_Q a) y
  end.
End Numerics.

Definition op_neg (a : value) : outcome value :=
  match a with
  | VInt x => Return (VInt (- x))
  | VFloat q => Return (fl (- q))
  end.

Definition op_pos (a : value) : outcome value := Return a.

(** *** The built-in functions added to the whitelist *)

Definition pyfunc := list value -> outcome value.

Definition py_abs : pyfunc := fun args =>
  match args with
  | [VInt x] => Return (VInt (Z.abs x))
  | [VFloat q] => Return (fl (Qabs q))
  | _ => Raise (TypeError "abs() takes exactly one argument")
  end.

Definition value_ltb (a b : value) : bool :=
  match (to_Q a ?= to_Q b)%Q with Lt => true | _ => false end.

(** [min(a, b, ...)] and [max(a, b, ...)] with at least two positional
    arguments; the first extremal argument is returned.  With a single
    argument Python expects an iterable, which no number is. *)
Definition py_min : pyfunc := fun args =>
  match args with
  | a :: b :: rest =>
    Return (fold_left (fun m x => if value_ltb x m then x else m)
                      (b :: rest) a)
  | [_] => Raise (TypeError "object is not iterable")
  | [] => Raise (TypeError "min expected at least 1 argument, got 0")
  end.

Definition py_max : pyfunc := fun args =>
  match args with
  | a :: b :: rest =>
    Return (fold_left (fun m x => if value_ltb m x then x else m)
                      (b :: rest) a)
  | [_] => Raise (TypeError "object is not iterable")
  | [] => Raise (TypeError "max expected at least 1 argument, got 0")
  end.

(** Rounding to the nearest integer, ties to the even one. *)
Definition round_half_even (q : Q) : Z :=
  let f := Qfloor q in
  match (q - inject_Z f ?= 1 # 2)%Q with
  | Lt => f
  | Gt => f + 1
  | Eq => if Z.even f then f else f + 1
  end.

Definition round_to (q : Q) (n : Z) : Q :=
  let scale := Qpower (inject_Z 10) n in
  (inject_Z (round_half_even (q * scale)) / scale)%Q.

Definition py_round : pyfunc := fun args =>
  match args with
  | [VInt x] => Return (VInt x)
  | [VFloat q] => Return (VInt (round_half_even q))
  | [VInt x; VInt n] =>
    if (0 <=? n)%Z then Return (VInt x)
    else Return (VInt (Qfloor (round_to (inject_Z x) n)))
  | [VFloat q; VInt n] => Return (fl (round_to q n))
  | _ => Raise (TypeError "round() arguments are not supported")
  end.

(** ** Dictionaries

    A [dict] is an association list in insertion order with at most
    one binding per key. *)

Section Dict.
Variables K V : Type.
Variable eqb : K -> K -> bool.

Definition dict := list (K * V).

(** [d.get(k)] *)
Fixpoint dict_get (k : K) (d : dict) : option V :=
  match d with
  | [] => None
  | (k', v) :: d' => if eqb k k' then Some v else dict_get k d'
  end.

(** [k in d] *)
Definition dict_mem (k : K) (d : dict) : bool :=
  match dict_get k d with Some _ => true | None => false end.

(** [d[k] = v] *)
Fixpoint dict_set (k : K) (v : V) (d : dict) : dict :=
  match d with
  | [] => [(k, v)]
  | (k', v') :: d' =>
    if eqb k k' then (k', v) :: d' else (k', v') :: dict_set k v d'
  end.

(** [d.update(e)] *)
Definition dict_update (d e : dict) : dict :=
  fold_left (fun acc kv => dict_set (fst kv) (snd kv) acc) e d.
End Dict.

(** ** The syntax tree of [ast] *)

Inductive operator : Type :=
| Add | Sub | Mult | Div | Pow | Mod
| FloorDiv | MatMult | LShift | RShift | BitOr | BitXor | BitAnd.

Inductive unaryop : Type :=
| USub | UAdd | Invert | Not.

(** The class of an operator node, the key of [ALLOWED_OPERATORS]. *)
Inductive optype : Type :=
| BinT (o : operator)
| UnT (o : unaryop).

Definition optype_eq_dec (a b : optype) : {a = b} + {a <> b}.
Proof. repeat decide equality. Defined.

Definition optype_eqb (a b : optype) : bool :=
  if optype_eq_dec a b then true else false.

(** Nodes.  [Num] is a numeric literal and [Str] a string literal
    (both of class [Constant], of which only the numeric ones are
    instances of [ast.Num]);
    [Other] stands for every node class the evaluator has no case
    for (comparisons, conditionals, lambdas, displays, ...). *)
#[warning="-register-all"]
Inductive expr : Type :=
| Num (n : value)
| Str (s : string)
| Name (id : string)
| Attribute (value : expr) (attr : string)
| BinOp (left : expr) (op : operator) (right : expr)
| UnaryOp (op : unaryop) (operand : expr)
| Call (func : expr) (args : list expr) (keywords : list (string * expr))
| Expression (body : expr)
| Other (kind : string) (children : list expr).

(** The class name of a node. *)
Definition node_kind (node : expr) : string :=
  match node with
  | Num _ => "Constant"
  | Str _ => "Constant"
  | Name _ => "Name"
  | Attribute _ _ => "Attribute"
  | BinOp _ _ _ => "BinOp"
  | UnaryOp _ _ => "UnaryOp"
  | Call _ _ _ => "Call"
  | Expression _ => "Expression"
  | Other kind _ => kind
  end.

(** ** Traced computations

    The evaluator's only effects are the calls it makes into the
    whitelist tables; each such call is recorded, in order, so that
    what the evaluator can invoke is a property of its result. *)

Inductive event : Type :=
| CallOp (k : optype) (args : list value)
| CallFn (name : string) (args : list value).

Definition M (A : Type) : Type := (list event * outcome A)%type.

Definition ret {A} (a : A) : M A := ([], Return a).
Definition raise {A} (e : exc) : M A := ([], Raise e).

Definition bind {A B} (m : M A) (f : A -> M B) : M B :=
  match m with
  | (t, Return a) => let (t', r) := f a in (t ++ t', r)
  | (t, Raise e) => (t, Raise e)
  end.

Definition emit (e : event) : M unit := ([e], Return tt).

Definition lift {A} (o : outcome A) : M A := ([], o).

Notation "x <- m ;; k" := (bind m (fun x => k))
  (at level 61, m at next level, right associativity).
Notation "m ;;; k" := (bind m (fun _ => k))
  (at level 61, right associativity).

Definition trace_of {A} (m : M A) : list event := fst m.
Definition result_of {A} (m : M A) : outcome A := snd m.

(** An object found in a module: a number, a function, or something
    else (a string, a loader, ...). *)
Inductive pyobject : Type :=
| ONum (v : value)
| OFunc (f : pyfunc)
| OOther.

(** Calling an object with positional arguments. *)
Definition call_object (obj : pyobject) (args : list value) : outcome value :=
  match obj with
  | OFunc f => f args
  | ONum _ | OOther => Raise (TypeError "object is not callable")
  end.

Definition binary (f : value -> value -> outcome value) : pyfunc :=
  fun args =>
    match args with
    | [a; b] => f a b
    | _ => Raise (TypeError "expected 2 arguments")
    end.

Definition unary (f : value -> outcome value) : pyfunc :=
  fun args =>
    match args with
    | [a] => f a
    | _ => Raise (TypeError "expected 1 argument")
    end.

Definition starts_with_underscore (k : string) : bool :=
  match k with
  | String c _ => ascii_eqb c "_"%char
  | EmptyString => false
  end.

(** [[ev(arg) for arg in args]]: the arguments are evaluated from left
    to right. *)
Definition eval_args (ev : expr -> M value) : list expr -> M (list value) :=
  fix go (l : list expr) : M (list value) :=
    match l with
    | [] => ret []
    | arg :: l' =>
      v <- ev arg ;;
      vs <- go l' ;;
      ret (v :: vs)
    end.

(** ** 1. Safe expression evaluator *)

Section Evaluator.
(** [ast.parse(expr, mode="eval").body]: the tree of the expression,
    or the exception the parser raises. *)
Variable ast_parse : str -> outcome expr.

(** The [math] module: the names of [dir(math)] with their values. *)
Variable math_module : dict string pyobject.

Variable real_pow : Q -> Q -> outcome value.

Definition ALLOWED_OPERATORS : dict optype pyfunc :=
  [ (BinT Add, binary op_add);
    (BinT Sub, binary op_sub);
    (BinT Mult, binary op_mul);
    (BinT Div, binary op_truediv);
    (BinT Pow, binary (op_pow real_pow));
    (BinT Mod, binary op_mod);
    (UnT USub, unary op_neg);
    (UnT UAdd, unary op_pos) ].

Definition ALLOWED_NAMES : dict string pyobject :=
  dict_update String.eqb
    (fold_left
       (fun acc kv =>
          if negb (starts_with_underscore (fst kv))
          then dict_set String.eqb (fst kv) (snd kv) acc
          else acc)
       math_module [])
    [ ("abs", OFunc py_abs); ("round", OFunc py_round);
      ("min", OFunc py_min); ("max", OFunc py_max) ].

(** [ALLOWED_OPERATORS[k]] *)
Definition operator_for (k : optype) : M pyfunc :=
  match dict_get optype_eqb k ALLOWED_OPERATORS with
  | Some f => ret f
  | None => raise (KeyError "operator class")
  end.

(** [node.func.id] *)
Definition func_id (func : expr) : M string :=
  match func with
  | Name id => ret id
  | _ => raise (AttributeError
                  ("'" ++ node_kind func ++ "' object has no attribute 'id'"))
  end.

Fixpoint _eval (node : expr) : M value :=
  match node with
  | Num n => ret n
  | BinOp l op r =>
    f <- operator_for (BinT op) ;;
    a <- _eval l ;;
    b <- _eval r ;;
    emit (CallOp (BinT op) [a; b]) ;;;
    lift (f [a; b])
  | UnaryOp op operand =>
    f <- operator_for (UnT op) ;;
    a <- _eval operand ;;
    emit (CallOp (UnT op) [a]) ;;;
    lift (f [a])
  | Call fn args _ =>
    func <- func_id fn ;;
    match dict_get String.eqb func ALLOWED_NAMES with
    | Some obj =>
      vs <- eval_args _eval args ;;
      emit (CallFn func vs) ;;;
      lift (call_object obj vs)
    | None => raise (ValueError ("Function " ++ func ++ " not allowed"))
    end
  | Expression body => _eval body
  | _ =>
    raise (TypeError
             ("Unsupported expression: <ast." ++ node_kind node ++ " object>"))
  end.

Definition safe_eval (expr_text : str) : M value :=
  node <- lift (ast_parse expr_text) ;;
  _eval node.
End Evaluator.

(** ** A model of [ast.parse] on the expression grammar

    The parser of Python is not part of the module.  [py_parse] models
    it on the grammar the evaluator is meant for: decimal integer and
    float literals, quoted strings without escapes, names, attribute
    access, calls with positional and keyword arguments, parentheses,
    the operator [not], and the unary and binary arithmetic and bitwise
    operators with Python's precedence and associativity.  Any other text is reported
    as a [SyntaxError].  The general results below hold for every
    parser; [py_parse] is used to run the module on concrete text. *)

Inductive token : Type :=
| TNum (v : value)
| TStr (s : string)
| TName (s : string)
| TBin (o : operator)
| TTilde
| TLPar
| TRPar
| TComma
| TDot
| TEq.

Fixpoint span (f : ascii -> bool) (s : str) : str * str :=
  match s with
  | c :: s' =>
    if f c then let (a, b) := span f s' in (c :: a, b) else ([], s)
  | [] => ([], [])
  end.

Definition digit_val (c : ascii) : Z := Z.of_nat (code c) - 48.

(** The number written by a run of decimal digits. *)
Definition digits_to_Z (ds : str) : Z :=
  fold_left (fun acc c => 10 * acc + digit_val c) ds 0.

Definition is_zero_char (c : ascii) : bool := (code c =? 48)%nat.

(** The digits of a numeric literal at the head of [s]: the integer
    part, whether the literal is a float (it has a fraction or an
    exponent), its value, and the rest of the text. *)
Definition scan_number (s : str) : option (str * bool * Q * str) :=
  let (ip, r1) := span is_digit s in
  let '(fp, has_dot, r2) :=
    match r1 with
    | c :: r =>
      if ascii_eqb c "."%char
      then let (f, r') := span is_digit r in (f, true, r')
      else ([], false, r1)
    | [] => ([], false, r1)
    end in
  let '(ex, has_exp, r3) :=
    match r2 with
    | c :: r =>
      if ascii_eqb c "e"%char || ascii_eqb c "E"%char then
        match r with
        | sg :: r' =>
          if ascii_eqb sg "-"%char || ascii_eqb sg "+"%char then
            match span is_digit r' with
            | ([], _) => (0, false, r2)
            | (ds, r'') =>
              ((if ascii_eqb sg "-"%char then - digits_to_Z ds
                else digits_to_Z ds), true, r'')
            end
          else
            match span is_digit r with
            | ([], _) => (0, false, r2)
            | (ds, r'') => (digits_to_Z ds, true, r'')
            end
        | [] => (0, false, r2)
        end
      else (0, false, r2)
    | [] => (0, false, r2)
    end in
  match ip, fp with
  | [], [] => None
  | _, _ =>
    Some (ip, has_dot || has_exp,
          (inject_Z (digits_to_Z (ip ++ fp))
           * Qpower (inject_Z 10) (ex - Z.of_nat (length fp)))%Q,
          r3)
  end.

(** A numeric literal of the expression grammar.  An integer literal
    with a leading zero is only legal when all its digits are zero. *)
Definition lex_number (s : str) : option (value * str) :=
  match scan_number s with
  | Some (ip, is_float, q, rest) =>
    if is_float then Some (fl q, rest)
    else
      match ip with
      | c :: _ :: _ =>
        if is_zero_char c && negb (forallb is_zero_char ip) then None
        else Some (VInt (digits_to_Z ip), rest)
      | _ => Some (VInt (digits_to_Z ip), rest)
      end
  | None => None
  end.

(** [float(s)] on decimal text: surrounding blanks, an optional sign,
    digits with an optional fraction and exponent. *)
Definition py_float (s : str) : outcome Q :=
  let t := strip s in
  let (neg, body) :=
    match t with
    | c :: r =>
      if ascii_eqb c "-"%char then (true, r)
      else if ascii_eqb c "+"%char then (false, r)
      else (false, t)
    | [] => (false, t)
    end in
  match scan_number body with
  | Some (_, _, q, []) => Return (Qred (if neg then - q else q))
  | _ =>
    Raise (ValueError ("could not convert string to float: '"
                       ++ string_of_list_ascii s ++ "'"))
  end.

Definition is_name_start (c : ascii) : bool :=
  is_alpha c || (code c =? 95)%nat.

Definition is_quote (c : ascii) : bool :=
  (code c =? 39)%nat || (code c =? 34)%nat.

Fixpoint tokenize (fuel : nat) (s : str) : option (list token) :=
  match fuel with
  | O => match s with [] => Some [] | _ => None end
  | S fuel' =>
    let continue (t : token) (rest : str) :=
      match tokenize fuel' rest with
      | Some ts => Some (t :: ts)
      | None => None
      end in
    match s with
    | [] => Some []
    | c :: s' =>
      if is_space c then tokenize fuel' s'
      else if is_digit c then
        match lex_number s with
        | Some (v, rest) => continue (TNum v) rest
        | None => None
        end
      else if is_name_start c then
        let (nm, rest) := span is_word s in
        continue (TName (string_of_list_ascii nm)) rest
      else if is_quote c then
        let (body, rest) := span (fun x => negb (ascii_eqb x c)) s' in
        match rest with
        | _ :: rest' => continue (TStr (string_of_list_ascii body)) rest'
        | [] => None
        end
      else
        match c, s' with
        | "."%char, d :: _ =>
          if is_digit d then
            match lex_number s with
            | Some (v, rest) => continue (TNum v) rest
            | None => None
            end
          else continue TDot s'
        | "."%char, [] => continue TDot s'
        | "*"%char, "*"%char :: r => continue (TBin Pow) r
        | "/"%char, "/"%char :: r => continue (TBin FloorDiv) r
        | "<"%char, "<"%char :: r => continue (TBin LShift) r
        | ">"%char, ">"%char :: r => continue (TBin RShift) r
        | "+"%char, _ => continue (TBin Add) s'
        | "-"%char, _ => continue (TBin Sub) s'
        | "*"%char, _ => continue (TBin Mult) s'
        | "/"%char, _ => continue (TBin Div) s'
        | "%"%char, _ => continue (TBin Mod) s'
        | "@"%char, _ => continue (TBin MatMult) s'
        | "|"%char, _ => continue (TBin BitOr) s'
        | "^"%char, _ => continue (TBin BitXor) s'
        | "&"%char, _ => continue (TBin BitAnd) s'
        | "~"%char, _ => continue TTilde s'
        | "("%char, _ => continue TLPar s'
        | ")"%char, _ => continue TRPar s'
        | ","%char, _ => continue TComma s'
        | "="%char, _ => continue TEq s'
        | _, _ => None
        end
    end
  end.

Definition keywords : list string :=
  [ "and"; "as"; "assert"; "async"; "await"; "break"; "class"; "continue";
    "def"; "del"; "elif"; "else"; "except"; "finally"; "for"; "from";
    "global"; "if"; "import"; "in"; "is"; "lambda"; "nonlocal"; "not";
    "or"; "pass"; "raise"; "return"; "try"; "while"; "with"; "yield" ].

Definition constants : list string := [ "True"; "False"; "None" ].

Definition mem_string (x : string) (l : list string) : bool :=
  existsb (String.eqb x) l.

Definition operator_eqb (a b : operator) : bool :=
  optype_eqb (BinT a) (BinT b).

(** Binary operators by increasing precedence; each level associates
    to the left.  Unary operators bind tighter, [**] tighter still. *)
Definition levels : list (list operator) :=
  [ [BitOr]; [BitXor]; [BitAnd]; [LShift; RShift]; [Add; Sub];
    [Mult; Div; FloorDiv; Mod; MatMult] ].

Definition parsed := option (expr * list token).

Fixpoint parse_expr (fuel : nat) (ts : list token) : parsed :=
  match fuel with
  | O => None
  | S fuel' =>
    let atom (ts : list token) : parsed :=
      match ts with
      | TNum v :: r => Some (Num v, r)
      | TStr s :: r => Some (Str s, r)
      | TName x :: r =>
        if mem_string x keywords then None
        else if mem_string x constants then Some (Other "Constant" [], r)
        else Some (Name x, r)
      | TLPar :: r =>
        match parse_expr fuel' r with
        | Some (e, TRPar :: r') => Some (e, r')
        | _ => None
        end
      | _ => None
      end in
    (* the arguments of a call, after the opening parenthesis *)
    let arguments :=
      fix arguments (m : nat) (ts : list token)
          (args : list expr) (kws : list (string * expr))
        : option (list expr * list (string * expr) * list token) :=
        match m with
        | O => None
        | S m' =>
          match ts with
          | TRPar :: r => Some (rev args, rev kws, r)
          | TName x :: TEq :: r =>
            match parse_expr fuel' r with
            | Some (e, TComma :: r') => arguments m' r' args ((x, e) :: kws)
            | Some (e, TRPar :: r') => Some (rev args, rev ((x, e) :: kws), r')
            | _ => None
            end
          | _ =>
            match kws with
            | _ :: _ => None
            | [] =>
              match parse_expr fuel' ts with
              | Some (e, TComma :: r') => arguments m' r' (e :: args) kws
              | Some (e, TRPar :: r') => Some (rev (e :: args), rev kws, r')
              | _ => None
              end
            end
          end
        end in
    (* calls and attribute accesses after an atom *)
    let trailers :=
      fix trailers (m : nat) (e : expr) (ts : list token) : parsed :=
        match m with
        | O => Some (e, ts)
        | S m' =>
          match ts with
          | TLPar :: r =>
            match arguments (S (length r)) r [] [] with
            | Some (args, kws, r') => trailers m' (Call e args kws) r'
            | None => None
            end
          | TDot :: TName x :: r => trailers m' (Attribute e x) r
          | TDot :: _ => None
          | _ => Some (e, ts)
          end
        end in
    let primary (ts : list token) : parsed :=
      match atom ts with
      | Some (e, r) => trailers (length r) e r
      | None => None
      end in
    (* unary operators and the power operator *)
    let factor :=
      fix factor (m : nat) (ts : list token) : parsed :=
        match m with
        | O => None
        | S m' =>
          let prefix (op : unaryop) (r : list token) : parsed :=
            match factor m' r with
            | Some (e, r') => Some (UnaryOp op e, r')
            | None => None
            end in
          match ts with
          | TBin Sub :: r => prefix USub r
          | TBin Add :: r => prefix UAdd r
          | TTilde :: r => prefix Invert r
          | _ =>
            match primary ts with
            | Some (e, TBin Pow :: r) =>
              match factor m' r with
              | Some (e2, r') => Some (BinOp e Pow e2, r')
              | None => None
              end
            | other => other
            end
          end
        end in
    let arith :=
    (fix level (lv : list (list operator)) (ts : list token) : parsed :=
       match lv with
       | [] => factor (S (length ts)) ts
       | ops :: lv' =>
         match level lv' ts with
         | Some (e, r) =>
           (fix more (m : nat) (e : expr) (r : list token) : parsed :=
              match r with
              | TBin o :: r' =>
                if existsb (operator_eqb o) ops then
                  match m with
                  | O => None
                  | S m' =>
                    match level lv' r' with
                    | Some (e2, r2) => more m' (BinOp e o e2) r2
                    | None => None
                    end
                  end
                else Some (e, r)
              | _ => Some (e, r)
              end) (length r) e r
         | None => None
         end
       end) levels in
    (* the operator [not] binds weaker than every arithmetic operator *)
    match ts with
    | TName x :: r =>
      if String.eqb x "not" then
        match parse_expr fuel' r with
        | Some (e, r') => Some (UnaryOp Not e, r')
        | None => None
        end
      else arith ts
    | _ => arith ts
    end
  end.

Definition py_parse (s : str) : outcome expr :=
  match tokenize (S (length s)) s with
  | Some ts =>
    match parse_expr (S (length ts)) ts with
    | Some (e, []) => Return e
    | _ => Raise (SyntaxError "invalid syntax")
    end
  | None => Raise (SyntaxError "invalid syntax")
  end.

(** A concrete environment for running the module: the functions of
    [math] that are exact on integers and rationals, next to two of
    the private names that [dir(math)] lists. *)
Definition math_exact : dict string pyobject :=
  [ ("__doc__", OOther);
    ("__name__", OOther);
    ("ceil", OFunc (unary (fun v => Return (VInt (Qceiling (to_Q v))))));
    ("fabs", OFunc (unary (fun v => Return (fl (Qabs (to_Q v))))));
    ("floor", OFunc (unary (fun v => Return (VInt (Qfloor (to_Q v))))));
    ("trunc", OFunc (unary (fun v => Return (VInt (Z.quot (Qnum (to_Q v)) (Zpos (Qden (to_Q v)))))))) ].

(** [x ** y] for a float [y] with an integral value.  Other exponents
    give results that are not rational; the model has no value for
    them. *)
Definition exact_pow (x y : Q) : outcome value :=
  if (Qden (Qred y) =? 1)%positive then
    if (Qnum y <? 0)%Z && Qzero x
    then Raise (ZeroDivisionError "0.0 cannot be raised to a negative power")
    else Return (fl (Qpower x (Qnum (Qred y))))
  else Raise (ValueError "result is not rational").

(** ** 2. Unit conversion *)

Definition unit_key_eqb (a b : str * str) : bool :=
  str_eqb (fst a) (fst b) && str_eqb (snd a) (snd b).

(** The constant [0.45359237]. *)
Definition kg_per_lb : Q := 45359237 # 100000000.

Definition UNIT_MAP : dict (str * str) (value -> outcome value) :=
  [ (($"m", $"cm"), fun x => op_mul x (VInt 100));
    (($"cm", $"m"), fun x => op_truediv x (VInt 100));
    (($"kg", $"lb"), fun x => op_truediv x (VFloat kg_per_lb));
    (($"lb", $"kg"), fun x => op_mul x (VFloat kg_per_lb)) ].

Definition convert_units (v : value) (from_unit to_unit : str)
  : outcome value :=
  let key := (lower from_unit, lower to_unit) in
  match dict_get unit_key_eqb key UNIT_MAP with
  | Some f => f v
  | None =>
    Raise (ValueError ("No converter registered for "
                       ++ string_of_list_ascii from_unit ++ " -> "
                       ++ string_of_list_ascii to_unit))
  end.

(** ** 3. Intent classification *)

Fixpoint alternatives (ws : list string) : regex :=
  match ws with
  | [] => Eps
  | [w] => Lit $w
  | w :: ws' => Alt (Lit $w) (alternatives ws')
  end.

(** [\b(convert|to (?:cm|m|kg|lb))] *)
Definition convert_keywords : regex :=
  Cat WordB
      (Grp 1 (Alt (Lit $"convert")
                  (Cat (Lit $"to ") (alternatives ["cm"; "m"; "kg"; "lb"])))).

(** [\b(mean|median|average)] *)
Definition stats_keywords : regex :=
  Cat WordB (Grp 1 (alternatives ["mean"; "median"; "average"])).

(** [\b(csv|spreadsheet|save)] *)
Definition csv_keywords : regex :=
  Cat WordB (Grp 1 (alternatives ["csv"; "spreadsheet"; "save"])).

Definition calculate_tokens : list string :=
  ["+"; "-"; "*"; "/"; "sqrt"; "^"].

Definition classify_intent (text : str) : string :=
  let text_l := strip (lower text) in
  if found (re_search convert_keywords text_l) then "convert"
  else if found (re_search stats_keywords text_l) then "stats"
  else if found (re_search csv_keywords text_l) then "generate_csv"
  else if startswith $"calculate" text_l
          || existsb (fun tok => contains $tok text_l) calculate_tokens
       then "calculate"
  else "unknown".

(** ** 4. Helpers *)

(** [-?\d+\.?\d*] *)
Definition number_re : regex :=
  Cat (Opt (Chr "-"%char))
      (Cat (Plus (Cls is_digit))
           (Cat (Opt (Chr "."%char)) (Star (Cls is_digit)))).

(** [[f(x) for x in l]] for a function that may raise. *)
Fixpoint map_outcome {A B} (f : A -> outcome B) (l : list A)
  : outcome (list B) :=
  match l with
  | [] => Return []
  | x :: l' =>
    obind (f x) (fun y =>
    obind (map_outcome f l') (fun ys => Return (y :: ys)))
  end.

Definition extract_numbers_from_text (text : str) : outcome (list Q) :=
  let nums := re_findall number_re text in
  map_outcome py_float nums.

(** *** [statistics.mean] and [statistics.median] on floats *)

Definition Qsum (l : list Q) : Q := fold_left Qplus l 0%Q.

Definition mean (data : list Q) : outcome Q :=
  match data with
  | [] => Raise (StatisticsError "mean requires at least one data point")
  | _ => Return (Qred (Qsum data / inject_Z (Z.of_nat (length data)))%Q)
  end.

Definition Qleb (a b : Q) : bool := Qle_bool a b.

Fixpoint insert_sorted (x : Q) (l : list Q) : list Q :=
  match l with
  | [] => [x]
  | y :: l' => if Qleb x y then x :: l else y :: insert_sorted x l'
  end.

(** [sorted(data)] *)
Definition sorted (data : list Q) : list Q :=
  fold_right insert_sorted [] data.

Definition median (data : list Q) : outcome Q :=
  let data := sorted data in
  let n := length data in
  if (n =? 0)%nat
  then Raise (StatisticsError "no median for empty data")
  else if (n mod 2 =? 1)%nat then Return (nth (n / 2) data 0%Q)
  else
    let i := (n / 2)%nat in
    Return (Qred ((nth (i - 1) data 0 + nth i data 0) / 2)%Q).

(** ** Result records and CSV text *)

Inductive field : Type :=
| FStr (s : string)
| FNum (v : value).

(** A result record: a dictionary with string keys. *)
Definition record := dict string field.

(** [str(z)] *)
Definition int_str (z : Z) : str :=
  list_ascii_of_string (NilZero.string_of_int (Z.to_int z)).

Definition digit_char (d : Z) : ascii := ascii_of_nat (48 + Z.to_nat d).

(** The digits of [rem / den] after the decimal point. *)
Fixpoint fraction_digits (fuel : nat) (rem den : Z) : str :=
  match fuel with
  | O => []
  | S fuel' =>
    if (rem =? 0)%Z then []
    else digit_char (10 * rem / den)
         :: fraction_digits fuel' (10 * rem mod den) den
  end.

(** [repr(x)] of a float in positional notation: the sign, the integer
    part, and the fraction with at least one and at most seventeen
    digits.  This is what Python prints for a float with at most
    fifteen significant digits whose magnitude is zero or lies between
    [1e-4] and [1e16]. *)
Definition float_repr (q : Q) : str :=
  let q := Qred q in
  let a := Z.abs (Qnum q) in
  let d := Zpos (Qden q) in
  let sign := if (Qnum q <? 0)%Z then ["-"%char] else [] in
  let frac := fraction_digits 17 (a mod d) d in
  sign ++ int_str (a / d) ++ "."%char
       :: match frac with [] => ["0"%char] | _ => frac end.

Inductive cell : Type :=
| CStr (s : string)
| CInt (z : Z)
| CFloat (q : Q).

Definition cell_text (c : cell) : str :=
  match c with
  | CStr s => $s
  | CInt z => int_str z
  | CFloat q => float_repr q
  end.

Definition quote_char : ascii := ascii_of_nat 34.
Definition CR : ascii := ascii_of_nat 13.
Definition LF : ascii := ascii_of_nat 10.

(** A field is quoted when it holds the delimiter, the quote character
    or a character of the line terminator. *)
Definition needs_quoting (s : str) : bool :=
  existsb (fun c => ascii_eqb c ","%char || ascii_eqb c quote_char
                    || ascii_eqb c CR || ascii_eqb c LF) s.

Definition quoted (s : str) : str :=
  quote_char
    :: flat_map (fun c => if ascii_eqb c quote_char then [c; c] else [c]) s
    ++ [quote_char].

Definition csv_field (c : cell) : str :=
  let s := cell_text c in
  if needs_quoting s then quoted s else s.

Fixpoint join (sep : str) (l : list str) : str :=
  match l with
  | [] => []
  | [x] => x
  | x :: l' => x ++ sep ++ join sep l'
  end.

(** [csv.writer(output).writerow(row)]: the row is appended to the
    buffer of [output]. *)
Definition writerow (row : list cell) (output : str) : str :=
  output ++ join [","%char] (map csv_field row) ++ [CR; LF].

(** [enumerate(l, start)] *)
Fixpoint enumerate {A} (start : Z) (l : list A) : list (Z * A) :=
  match l with
  | [] => []
  | x :: l' => (start, x) :: enumerate (start + 1) l'
  end.

(** ** 5. Handlers and 6. dispatcher *)

Section Agent.
Variable ast_parse : str -> outcome expr.
Variable math_module : dict string pyobject.
Variable real_pow : Q -> Q -> outcome value.

(** [^(calculate|what is|evaluate)\s*] *)
Definition trigger_re : regex :=
  Cat Bol
      (Cat (Grp 1 (alternatives ["calculate"; "what is"; "evaluate"]))
           (Star (Cls is_space))).

Definition handle_calculate (text : str) : outcome record :=
  let t := strip (re_sub_anchored trigger_re text) in
  let t := replace $"^" $"**" t in
  obind (result_of (safe_eval ast_parse math_module real_pow t))
        (fun result =>
  Return [ ("status", FStr "ok"); ("intent", FStr "calculate");
           ("result", FNum result) ]).

(** The conversion phrase: group 1 is a number as in [number_re],
    group 2 and group 3 are [[a-zA-Z]+], with [\s*] between the
    parts and the word [to] or [in] before group 3. *)
Definition conversion_re : regex :=
  Cat (Grp 1 number_re)
      (Cat (Star (Cls is_space))
           (Cat (Grp 2 (Plus (Cls is_alpha)))
                (Cat (Star (Cls is_space))
                     (Cat (Alt (Lit $"to") (Lit $"in"))
                          (Cat (Star (Cls is_space))
                               (Grp 3 (Plus (Cls is_alpha)))))))).

Definition group_or_empty (i : nat) (m : rmatch_obj) : str :=
  match group i (m_groups m) with
  | Some s => s
  | None => []
  end.

Definition handle_convert (text : str) : outcome record :=
  match re_search conversion_re text with
  | None =>
    Return [ ("status", FStr "error"); ("intent", FStr "convert");
             ("error", FStr "Invalid conversion format") ]
  | Some m =>
    let value := group_or_empty 1 m in
    let from_unit := group_or_empty 2 m in
    let to_unit := group_or_empty 3 m in
    obind (py_float value) (fun x =>
    obind (convert_units (VFloat x) from_unit to_unit) (fun result =>
    Return [ ("status", FStr "ok"); ("intent", FStr "convert");
             ("result", FNum result);
             ("from", FStr (string_of_list_ascii from_unit));
             ("to", FStr (string_of_list_ascii to_unit)) ]))
  end.

Definition handle_stats (text : str) : outcome record :=
  obind (extract_numbers_from_text text) (fun nums =>
  match nums with
  | [] =>
    Return [ ("status", FStr "error"); ("intent", FStr "stats");
             ("error", FStr "No numbers found") ]
  | _ =>
    if contains $"mean" text || contains $"average" text then
      obind (mean nums) (fun r =>
      Return [ ("status", FStr "ok"); ("intent", FStr "stats");
               ("operation", FStr "mean"); ("result", FNum (VFloat r)) ])
    else if contains $"median" text then
      obind (median nums) (fun r =>
      Return [ ("status", FStr "ok"); ("intent", FStr "stats");
               ("operation", FStr "median"); ("result", FNum (VFloat r)) ])
    else
      Return [ ("status", FStr "error"); ("intent", FStr "stats");
               ("error", FStr "No valid operation found") ]
  end).

Definition handle_generate_csv (text : str) : outcome record :=
  obind (extract_numbers_from_text text) (fun nums =>
  match nums with
  | [] =>
    Return [ ("status", FStr "error"); ("intent", FStr "generate_csv");
             ("error", FStr "No numbers found") ]
  | _ =>
    let output := [] in
    let output := writerow [CStr "index"; CStr "value"] output in
    let output :=
      fold_left (fun out iv => writerow [CInt (fst iv); CFloat (snd iv)] out)
                (enumerate 1 nums) output in
    Return [ ("status", FStr "ok"); ("intent", FStr "generate_csv");
             ("csv", FStr (string_of_list_ascii output)) ]
  end).

Definition handle_unknown (text : str) : outcome record :=
  Return [ ("status", FStr "error"); ("intent", FStr "unknown");
           ("error", FStr "Sorry, I couldn't understand your request.") ].

Definition INTENT_HANDLERS : dict string (str -> outcome record) :=
  [ ("calculate", handle_calculate);
    ("convert", handle_convert);
    ("stats", handle_stats);
    ("generate_csv", handle_generate_csv);
    ("unknown", handle_unknown) ].

Definition agent_process (text : str) : outcome record :=
  let intent := classify_intent text in
  let handler :=
    match dict_get String.eqb intent INTENT_HANDLERS with
    | Some h => h
    | None => handle_unknown
    end in
  handler text.
End Agent.



(** ** Direct descriptions

    What the regular expressions and loops of the module compute,
    written without the matcher; the results below relate the two. *)

(** A keyword of [ws] starts at a word boundary somewhere in the text
    that has [bef] before it (nearest first) and [aft] from it on. *)
Fixpoint keyword_scan (ws : list string) (bef aft : str) : bool :=
  (at_boundary (Pos bef aft) && existsb (fun w => startswith $w aft) ws)
  || match aft with
     | [] => false
     | c :: aft' => keyword_scan ws (c :: bef) aft'
     end.

Definition has_keyword (ws : list string) (text : str) : bool :=
  keyword_scan ws [] text.

(** The words of the pattern [\b(convert|to (?:cm|m|kg|lb))]. *)
Definition convert_words : list string :=
  ["convert"; "to cm"; "to m"; "to kg"; "to lb"].

(** The text without a leading trigger phrase and the blanks after
    it. *)
Definition strip_trigger (text : str) : str :=
  match find (fun w => startswith $w text)
             ["calculate"; "what is"; "evaluate"] with
  | Some w => lstrip (skipn (length $w) text)
  | None => text
  end.

(** Every caret written as the power operator. *)
Definition caret_to_power (t : str) : str :=
  flat_map (fun c => if ascii_eqb c "^"%char then $"**" else [c]) t.

Definition has_digit (s : str) : bool := existsb is_digit s.

(** The middle of a sorted list: the middle element, or the mean of
    the two middle elements when the length is even. *)
Definition middle (s : list Q) : Q :=
  let n := length s in
  if Nat.even n
  then ((nth (n / 2 - 1) s 0 + nth (n / 2) s 0) / 2)%Q
  else nth (n / 2) s 0%Q.

(** One line of the table: index, value, line terminator. *)
Definition csv_row (iv : Z * Q) : str :=
  int_str (fst iv) ++ ","%char :: float_repr (snd iv) ++ [CR; LF].

(** [n] nested negations of the literal [1]. *)
Fixpoint nest (n : nat) : expr :=
  match n with
  | O => Num (VInt 1)
  | S n' => UnaryOp USub (nest n')
  end.

(** The nesting depth of a tree. *)
Fixpoint depth (e : expr) : nat :=
  match e with
  | Num _ | Str _ | Name _ => 1
  | Attribute v _ => S (depth v)
  | BinOp l _ r => S (Nat.max (depth l) (depth r))
  | UnaryOp _ x => S (depth x)
  | Call f args kws =>
    S (Nat.max (depth f)
         (Nat.max (list_max (map depth args))
                  (list_max (map (fun kv => depth (snd kv)) kws))))
  | Expression b => S (depth b)
  | Other _ cs => S (list_max (map depth cs))
  end.

(** The identifiers in call position anywhere in a tree. *)
Fixpoint call_names (e : expr) : list string :=
  match e with
  | Num _ | Str _ | Name _ => []
  | Attribute v _ => call_names v
  | BinOp l _ r => call_names l ++ call_names r
  | UnaryOp _ x => call_names x
  | Call f args kws =>
    match f with Name id => [id] | _ => [] end
    ++ call_names f ++ flat_map call_names args
    ++ flat_map (fun kv => call_names (snd kv)) kws
  | Expression b => call_names b
  | Other _ cs => flat_map call_names cs
  end.

(** The identifiers in call position outside keyword arguments: the
    call nodes an evaluation can come to. *)
Fixpoint positional_call_names (e : expr) : list string :=
  match e with
  | Num _ | Str _ | Name _ => []
  | Attribute v _ => positional_call_names v
  | BinOp l _ r => positional_call_names l ++ positional_call_names r
  | UnaryOp _ x => positional_call_names x
  | Call f args _ =>
    match f with Name id => [id] | _ => [] end
    ++ positional_call_names f ++ flat_map positional_call_names args
  | Expression b => positional_call_names b
  | Other _ cs => flat_map positional_call_names cs
  end.

(** An event is whitelisted when its operator or function is a key of
    the corresponding table. *)
Definition whitelisted (math_module : dict string pyobject)
           (real_pow : Q -> Q -> outcome value) (ev : event) : bool :=
  match ev with
  | CallOp k _ => dict_mem optype_eqb k (ALLOWED_OPERATORS real_pow)
  | CallFn name _ => dict_mem String.eqb name (ALLOWED_NAMES math_module)
  end.

Definition disallowed (name : string) : exc :=
  ValueError ("Function " ++ name ++ " not allowed").

(** What a pattern can match: [den r p q] when [r] matches the text
    between the positions [p] and [q] of a subject. *)
Inductive den : regex -> pos -> pos -> Prop :=
| den_Eps p : den Eps p p
| den_Chr c b r : den (Chr c) (Pos b (c :: r)) (Pos (c :: b) r)
| den_Cls f x b r : f x = true -> den (Cls f) (Pos b (x :: r)) (Pos (x :: b) r)
| den_Cat r1 r2 p q s : den r1 p q -> den r2 q s -> den (Cat r1 r2) p s
| den_AltL r1 r2 p q : den r1 p q -> den (Alt r1 r2) p q
| den_AltR r1 r2 p q : den r2 p q -> den (Alt r1 r2) p q
| den_OptSome r p q : den r p q -> den (Opt r) p q
| den_OptNone r p : den (Opt r) p p
| den_StarNil r p : den (Star r) p p
| den_StarCons r p q s : den r p q -> den (Star r) q s -> den (Star r) p s
| den_Grp i r p q : den r p q -> den (Grp i r) p q
| den_WordB p : at_boundary p = true -> den WordB p p
| den_Bol a : den Bol (Pos [] a) (Pos [] a).

(** Patterns that match at every position, possibly the empty text. *)
Fixpoint nofail (r : regex) : bool :=
  match r with
  | Eps | Opt _ | Star _ => true
  | Cat r1 r2 => nofail r1 && nofail r2
  | Alt r1 r2 => nofail r1 || nofail r2
  | Grp _ r1 => nofail r1
  | Chr _ | Cls _ | WordB | Bol => false
  end.

(** A continuation that accepts every position. *)
Definition total (A : Type) (k : cont A) : Prop :=
  forall p caps, k p caps <> None.

(** The characters of a number in decimal notation. *)
Definition numeric_char (c : ascii) : bool :=
  is_digit c || ascii_eqb c "-"%char || ascii_eqb c "."%char.

(** The position reached from [p] by reading the word [w]. *)
Definition advance (w : str) (p : pos) : pos :=
  Pos (rev w ++ before p) (skipn (length w) (after p)).

(** ** Further descriptions of the evaluator *)

(** Trees of integer arithmetic: integer literals under [+], [-], [*]
    and the unary signs. *)
Fixpoint int_arith (e : expr) : bool :=
  match e with
  | Num (VInt _) => true
  | BinOp l (Add | Sub | Mult) r => int_arith l && int_arith r
  | UnaryOp (USub | UAdd) x => int_arith x
  | _ => false
  end.

(** The integer such a tree denotes. *)
Fixpoint int_value (e : expr) : Z :=
  match e with
  | Num (VInt z) => z
  | BinOp l Add r => int_value l + int_value r
  | BinOp l Sub r => int_value l - int_value r
  | BinOp l Mult r => int_value l * int_value r
  | UnaryOp USub x => - int_value x
  | UnaryOp UAdd x => int_value x
  | _ => 0
  end.

(** The trees the evaluator has a case for at every node it comes to:
    numeric literals, operators of the operator table, and calls by
    plain name of a key of the function table. *)
Fixpoint supported (math_module : dict string pyobject) (e : expr) : bool :=
  match e with
  | Num _ => true
  | BinOp l o r =>
    match o with
    | Add | Sub | Mult | Div | Pow | Mod =>
      supported math_module l && supported math_module r
    | _ => false
    end
  | UnaryOp o x =>
    match o with
    | USub | UAdd => supported math_module x
    | _ => false
    end
  | Call (Name id) args _ =>
    dict_mem String.eqb id (ALLOWED_NAMES math_module)
    && forallb (supported math_module) args
  | Expression b => supported math_module b
  | _ => false
  end.

(** The names added to the function table by hand. *)
Definition builtin_names : list string := ["abs"; "round"; "min"; "max"].

(** The unit pairs with a registered converter. *)
Definition registered_pairs : list (str * str) :=
  [ ($"m", $"cm"); ($"cm", $"m"); ($"kg", $"lb"); ($"lb", $"kg") ].

(** A record as the callers of [agent_process] read it: it names its
    intent, and it either reports success without an error message or
    reports an error with one. *)
Definition well_formed (intent : string) (r : record) : Prop :=
  dict_get String.eqb "intent" r = Some (FStr intent)
  /\ ((dict_get String.eqb "status" r = Some (FStr "ok")
       /\ dict_get String.eqb "error" r = None)
      \/ (dict_get String.eqb "status" r = Some (FStr "error")
          /\ exists msg, dict_get String.eqb "error" r = Some (FStr msg))).

(** The intents with a handler. *)
Definition intents : list string :=
  ["calculate"; "convert"; "stats"; "generate_csv"; "unknown"].

(** What a pattern can match, with the groups it records: [denc r p c
    q c'] when [r] matches between [p] and [q] and turns the groups
    [c] into [c']. *)
Inductive denc : regex -> pos -> captures -> pos -> captures -> Prop :=
| denc_Eps p c : denc Eps p c p c
| denc_Chr x b r c : denc (Chr x) (Pos b (x :: r)) c (Pos (x :: b) r) c
| denc_Cls f x b r c :
    f x = true -> denc (Cls f) (Pos b (x :: r)) c (Pos (x :: b) r) c
| denc_Cat r1 r2 p c q c1 s c2 :
    denc r1 p c q c1 -> denc r2 q c1 s c2 -> denc (Cat r1 r2) p c s c2
| denc_AltL r1 r2 p c q c1 : denc r1 p c q c1 -> denc (Alt r1 r2) p c q c1
| denc_AltR r1 r2 p c q c1 : denc r2 p c q c1 -> denc (Alt r1 r2) p c q c1
| denc_OptSome r p c q c1 : denc r p c q c1 -> denc (Opt r) p c q c1
| denc_OptNone r p c : denc (Opt r) p c p c
| denc_StarNil r p c : denc (Star r) p c p c
| denc_StarCons r p c q c1 s c2 :
    denc r p c q c1 -> denc (Star r) q c1 s c2 -> denc (Star r) p c s c2
| denc_Grp i r p c q c1 :
    denc r p c q c1 ->
    denc (Grp i r) p c q
         ((i, firstn (length (after p) - length (after q)) (after p)) :: c1)
| denc_WordB p c : at_boundary p = true -> denc WordB p c p c
| denc_Bol a c : denc Bol (Pos [] a) c (Pos [] a) c.

(** Patterns without groups. *)
Fixpoint groupfree (r : regex) : bool :=
  match r with
  | Grp _ _ => false
  | Cat r1 r2 | Alt r1 r2 => groupfree r1 && groupfree r2
  | Opt r1 | Star r1 => groupfree r1
  | Eps | Chr _ | Cls _ | WordB | Bol => true
  end.

(** The record of a failed conversion phrase. *)
Definition invalid_conversion : record :=
  [ ("status", FStr "error"); ("intent", FStr "convert");
    ("error", FStr "Invalid conversion format") ].

(** ** A direct reading of the numbers of a text *)

(** An optional character [c] at the head of a text. *)
Definition take_char (c : ascii) (s : str) : str * str :=
  match s with
  | x :: r => if ascii_eqb x c then ([x], r) else ([], s)
  | [] => ([], s)
  end.

(** The number that starts a text, with the rest of the text: an
    optional minus sign, the longest run of digits, which must not be
    empty, an optional point and the longest run of digits after it. *)
Definition number_prefix (s : str) : option (str * str) :=
  let (sign, body) := take_char "-"%char s in
  let (ds, r1) := span is_digit body in
  match ds with
  | [] => None
  | _ :: _ =>
    let (dot, r2) := take_char "."%char r1 in
    let (ds', r3) := span is_digit r2 in
    Some (sign ++ ds ++ dot ++ ds', r3)
  end.

(** The first number at or after the head of a text. *)
Fixpoint next_number (s : str) : option (str * str) :=
  match number_prefix s with
  | Some found => Some found
  | None =>
    match s with
    | [] => None
    | _ :: r => next_number r
    end
  end.

(** The numbers of a text, from left to right. *)
Fixpoint number_texts_fuel (fuel : nat) (s : str) : list str :=
  match fuel with
  | O => []
  | S fuel' =>
    match next_number s with
    | None => []
    | Some (w, rest) => w :: number_texts_fuel fuel' rest
    end
  end.

Definition number_texts (s : str) : list str :=
  number_texts_fuel (S (length s)) s.

(** ** 7. The command loop

    Standard input is the list of the lines still to be read, standard
    output the list of what has been written: the prompts of [input]
    and the texts of [print], without the newline that ends each of
    them.  A record that is printed is kept as such, not as its printed
    form, and so is the number in the line [The result is ...] of the
    simple calculator, [PrintResult]. *)

(** What ends a run of a script besides its last statement. *)
Inductive fault : Type :=
| Uncaught (e : exc)
| NameError (name : string)
| EOFError.

Inductive ending : Type :=
| Finished
| Faulted (f : fault).

Inductive output : Type :=
| Prompt (s : string)
| PrintLine (s : string)
| PrintText (s : str)
| PrintRecord (r : record)
| PrintResult (v : value).

Definition field_is (f : field) (s : string) : bool :=
  match f with
  | FStr x => String.eqb x s
  | FNum _ => false
  end.

(** [r[k]] *)
Definition item (k : string) (r : record) : outcome field :=
  match dict_get String.eqb k r with
  | Some f => Return f
  | None => Raise (KeyError k)
  end.

Definition field_text (f : field) : str :=
  match f with
  | FStr s => $s
  | FNum (VInt z) => int_str z
  | FNum (VFloat q) => float_repr q
  end.

(** What the loop prints for a response: the CSV text under a heading
    for a successful generate_csv, the record otherwise. *)
Definition show_response (resp : record) : outcome output :=
  obind (item "intent" resp) (fun intent =>
  if field_is intent "generate_csv" then
    obind (item "status" resp) (fun status =>
    if field_is status "ok" then
      obind (item "csv" resp) (fun csv =>
      Return (PrintText ($"Generated CSV:" ++ [LF] ++ $" " ++ field_text csv)))
    else Return (PrintRecord resp))
  else Return (PrintRecord resp)).

(** [text.lower() in ("quit", "exit")] *)
Definition is_quit (text : str) : bool :=
  str_eqb (lower text) $"quit" || str_eqb (lower text) $"exit".

Definition banner : list output :=
  [ PrintLine "Calculator Agent - try commands like:";
    PrintLine "  calculate 2 + 3 * 4";
    PrintLine "  10 kg to lb";
    PrintLine "  mean of 5, 10, 15";
    PrintLine "  generate csv 1 2 3 4 5";
    PrintText ($"Type 'quit' or 'exit' to stop." ++ [LF]) ].

Section CommandLoop.
Variable ast_parse : str -> outcome expr.
Variable math_module : dict string pyobject.
Variable real_pow : Q -> Q -> outcome value.

(** The loop [while True], run on the lines of standard input. *)
Fixpoint command_loop (lines : list str) : list output * ending :=
  match lines with
  | [] => ([Prompt ">> "], Faulted EOFError)
  | line :: rest =>
    let text := strip line in
    if is_quit text then ([Prompt ">> "], Finished)
    else
      match agent_process ast_parse math_module real_pow text with
      | Raise e => ([Prompt ">> "], Faulted (Uncaught e))
      | Return resp =>
        match show_response resp with
        | Raise e => ([Prompt ">> "], Faulted (Uncaught e))
        | Return out =>
          let (outs, fin) := command_loop rest in
          (Prompt ">> " :: out :: outs, fin)
        end
      end
  end.

(** The script run as the main module. *)
Definition main (lines : list str) : list output * ending :=
  let (outs, fin) := command_loop lines in
  (banner ++ outs, fin).
End CommandLoop.

(** * [simplecalculator.py] *)

(** [int(s)] on decimal text: surrounding blanks, an optional sign and
    at least one digit. *)
Definition py_int (s : str) : outcome Z :=
  let t := strip s in
  let (neg, body) :=
    match t with
    | c :: r =>
      if ascii_eqb c "-"%char then (true, r)
      else if ascii_eqb c "+"%char then (false, r)
      else (false, t)
    | [] => (false, t)
    end in
  match body with
  | _ :: _ =>
    if forallb is_digit body
    then Return (if neg then - digits_to_Z body else digits_to_Z body)
    else Raise (ValueError ("invalid literal for int() with base 10: '"
                            ++ string_of_list_ascii s ++ "'"))
  | [] => Raise (ValueError ("invalid literal for int() with base 10: '"
                             ++ string_of_list_ascii s ++ "'"))
  end.

(** [int(input(prompt))]: the prompt is written, a line is read and
    converted; the answer is the number or the fault, with the lines
    left. *)
Definition read_int (lines : list str) : (ending + Z) * list str :=
  match lines with
  | [] => (inl (Faulted EOFError), [])
  | line :: rest =>
    match py_int line with
    | Return z => (inr z, rest)
    | Raise e => (inl (Faulted (Uncaught e)), rest)
    end
  end.

Definition menu : list output :=
  [ PrintLine "Simple Calculator"; PrintLine "1. Addition";
    PrintLine "2. Subtraction"; PrintLine "3. Multiplication";
    PrintLine "4. Division" ].

(** The script, run on the lines of standard input. *)
Definition simple_calculator (lines : list str) : list output * ending :=
  let out := menu ++ [Prompt "Choose and operation: "] in
  match read_int lines with
  | (inl stop, _) => (out, stop)
  | (inr option, lines) =>
    if existsb (Z.eqb option) [1; 2; 3; 4] then
      let out := out ++ [Prompt "Enter first number: "] in
      match read_int lines with
      | (inl stop, _) => (out, stop)
      | (inr num1, lines) =>
        let out := out ++ [Prompt "Enter second number: "] in
        match read_int lines with
        | (inl stop, _) => (out, stop)
        | (inr num2, _) =>
          let result :=
            if option =? 1 then Return (VInt (num1 + num2))
            else if option =? 2 then Return (VInt (num1 - num2))
            else if option =? 3 then Return (VInt (num1 * num2))
            else op_truediv (VInt num1) (VInt num2) in
          match result with
          | Return v => (out ++ [PrintResult v], Finished)
          | Raise e => (out, Faulted (Uncaught e))
          end
        end
      end
    else
      (* [result] was never assigned *)
      (out ++ [PrintLine "Invalid input"], Faulted (NameError "result"))
  end.

(** The number of occurrences of a character in a text. *)
Definition count_char (c : ascii) (s : str) : nat :=
  length (filter (ascii_eqb c) s).

(** * Results *)

Unset Implicit Arguments.

(** ** Characters *)

Ltac by_cases_on_char c :=
  destruct c as [[] [] [] [] [] [] [] []]; vm_compute; try reflexivity;
  try discriminate; auto.

Lemma ascii_eqb_eq (a b : ascii) : ascii_eqb a b = true <-> a = b.
Proof. apply Ascii.eqb_eq. Qed.

Lemma ascii_eqb_sym (a b : ascii) : ascii_eqb a b = ascii_eqb b a.
Proof. apply Ascii.eqb_sym. Qed.

Lemma ascii_eqb_refl (a : ascii) : ascii_eqb a a = true.
Proof. apply Ascii.eqb_refl. Qed.

Lemma digit_not_space (c : ascii) : is_digit c = true -> is_space c = false.
Proof. by_cases_on_char c. Qed.

Lemma digit_not_minus (c : ascii) :
  is_digit c = true -> ascii_eqb c "-"%char = false.
Proof. by_cases_on_char c. Qed.

Lemma digit_not_plus (c : ascii) :
  is_digit c = true -> ascii_eqb c "+"%char = false.
Proof. by_cases_on_char c. Qed.

Lemma digit_not_dot (c : ascii) :
  is_digit c = true -> ascii_eqb c "."%char = false.
Proof. by_cases_on_char c. Qed.

Lemma lower_char_idem (c : ascii) : lower_char (lower_char c) = lower_char c.
Proof. by_cases_on_char c. Qed.

Lemma lower_idem (s : str) : lower (lower s) = lower s.
Proof.
  unfold lower. rewrite map_map. apply map_ext. apply lower_char_idem.
Qed.

(** ** Text primitives *)

Lemma startswith_app (a w s : str) :
  startswith (a ++ w) s = startswith a s && startswith w (skipn (length a) s).
Proof.
  revert s. induction a as [|x a IH]; intros s; simpl.
  - reflexivity.
  - destruct s as [|y s]; simpl.
    + reflexivity.
    + rewrite IH. now rewrite andb_assoc.
Qed.

Lemma startswith_prefix (w s : str) :
  startswith w s = true <-> exists rest, s = w ++ rest.
Proof.
  revert s. induction w as [|x w IH]; intros s; simpl.
  - split; eauto.
  - destruct s as [|y s].
    + split; [discriminate | intros [rest H]; discriminate].
    + rewrite andb_true_iff, ascii_eqb_eq, IH. split.
      * intros [-> [rest ->]]. now exists rest.
      * intros [rest H]. injection H as -> ->. split; eauto.
Qed.

Lemma contains_spec (w s : str) :
  contains w s = true <-> exists pre post, s = pre ++ w ++ post.
Proof.
  induction s as [|c s IH]; simpl.
  - rewrite orb_false_r, startswith_prefix. split.
    + intros [rest H]. now exists [], rest.
    + intros [pre [post H]]. destruct pre; simpl in H.
      * now exists post.
      * discriminate.
  - rewrite orb_true_iff, startswith_prefix, IH. split.
    + intros [[rest H] | [pre [post H]]].
      * now exists [], rest.
      * exists (c :: pre), post. simpl. now rewrite H.
    + intros [pre [post H]]. destruct pre as [|x pre]; simpl in H.
      * left. now exists post.
      * right. injection H as _ H. now exists pre, post.
Qed.

Lemma span_all (f : ascii -> bool) (a b : str) :
  forallb f a = true ->
  match b with [] => true | c :: _ => negb (f c) end = true ->
  span f (a ++ b) = (a, b).
Proof.
  intros Ha Hb. induction a as [|x a IH]; simpl in *.
  - destruct b as [|c b]; simpl; [reflexivity|].
    destruct (f c); [discriminate | reflexivity].
  - apply andb_true_iff in Ha as [Hx Ha]. rewrite Hx, (IH Ha). reflexivity.
Qed.

Lemma lstrip_span (s : str) : lstrip s = snd (span is_space s).
Proof.
  induction s as [|c s IH]; simpl; [reflexivity|].
  destruct (is_space c); [|reflexivity].
  rewrite IH. now destruct (span is_space s).
Qed.

Lemma lstrip_id (s : str) :
  forallb (fun c => negb (is_space c)) s = true -> lstrip s = s.
Proof.
  destruct s as [|c s]; simpl; [reflexivity|].
  intros H. apply andb_true_iff in H as [H _].
  destruct (is_space c); [discriminate | reflexivity].
Qed.

Lemma strip_id (s : str) :
  forallb (fun c => negb (is_space c)) s = true -> strip s = s.
Proof.
  intros H. unfold strip, rstrip. rewrite (lstrip_id _ H).
  rewrite lstrip_id.
  - apply rev_involutive.
  - rewrite forallb_forall in *. intros x Hx. apply H.
    now apply in_rev.
Qed.

Lemma replace_fuel_caret (fuel : nat) (s : str) :
  (length s <= fuel)%nat ->
  replace_fuel fuel $"^" $"**" s = caret_to_power s.
Proof.
  revert s. induction fuel as [|fuel IH]; intros s Hlen.
  - destruct s; [reflexivity | simpl in Hlen; lia].
  - destruct s as [|c s]; [reflexivity|].
    simpl in Hlen. cbn [replace_fuel caret_to_power flat_map].
    change (startswith $"^" (c :: s)) with (ascii_eqb "^"%char c && true).
    rewrite andb_true_r, ascii_eqb_sym.
    destruct (ascii_eqb c "^"%char).
    + change (skipn (length $"^") (c :: s)) with s.
      rewrite IH by lia. reflexivity.
    + rewrite IH by lia. reflexivity.
Qed.

Lemma replace_caret (s : str) : replace $"^" $"**" s = caret_to_power s.
Proof. apply replace_fuel_caret. lia. Qed.

Lemma caret_to_power_no_caret (s : str) :
  existsb (fun c => ascii_eqb c "^"%char) (caret_to_power s) = false.
Proof.
  induction s as [|c s IH]; [reflexivity|].
  unfold caret_to_power in *. cbn [flat_map].
  rewrite existsb_app, IH, orb_false_r.
  destruct (ascii_eqb c "^"%char) eqn:E; simpl.
  - reflexivity.
  - now rewrite E.
Qed.

(** ** The matcher *)

Section MatcherFacts.
Variable A : Type.
Implicit Types (k : cont A) (p : pos) (caps : captures).

Lemma pos_eta p : Pos (before p) (after p) = p.
Proof. now destruct p. Qed.

Lemma rmatch_Lit (w : str) p caps k :
  rmatch (Lit w) p caps k =
  if startswith w (after p) then k (advance w p) caps else None.
Proof.
  revert p. induction w as [|c w IH]; intros p.
  - simpl. unfold advance. simpl. now rewrite pos_eta.
  - cbn [Lit rmatch]. destruct (after p) as [|x rest] eqn:E.
    + reflexivity.
    + cbn [startswith]. rewrite (ascii_eqb_sym c x).
      destruct (ascii_eqb x c) eqn:Exc; [|reflexivity].
      rewrite IH. simpl. unfold advance. simpl. rewrite E. simpl.
      apply ascii_eqb_eq in Exc. subst x.
      rewrite <- app_assoc. reflexivity.
Qed.

Lemma orelse_total (x : option A) (y : unit -> option A) :
  y tt <> None -> orelse x y <> None.
Proof. destruct x; simpl; [discriminate | auto]. Qed.

Lemma rmatch_nofail (r : regex) :
  nofail r = true ->
  forall k, total k -> forall p caps, rmatch r p caps k <> None.
Proof.
  induction r as [ | c | f | r1 IH1 r2 IH2 | r1 IH1 r2 IH2 | r IH | r IH
                 | i r IH | | ];
    simpl; intros Hr k Hk q caps; try discriminate.
  - apply Hk.
  - apply andb_true_iff in Hr as [H1 H2].
    apply IH1; [assumption|]. intros p' caps'. now apply IH2.
  - apply orb_true_iff in Hr as [H1 | H2].
    + destruct (rmatch r1 q caps k) eqn:E; simpl; [discriminate|].
      exfalso. revert E. now apply IH1.
    + apply orelse_total. now apply IH2.
  - apply orelse_total, Hk.
  - destruct (length (after q)); [apply Hk | apply orelse_total, Hk].
  - apply IH; [assumption|]. intros p' caps'. apply Hk.
Qed.

(** A starred class followed by a pattern that cannot fail reads
    the longest run of the class. *)
Lemma star_class_loop (f : ascii -> bool) k :
  total k ->
  forall (aft bef : str) caps (fuel : nat),
    (length aft <= fuel)%nat ->
    (fix loop (fuel : nat) p caps : option A :=
       match fuel with
       | O => k p caps
       | S fuel' =>
         orelse
           (rmatch (Cls f) p caps (fun p' caps' =>
              if (length (after p') <? length (after p))%nat
              then loop fuel' p' caps' else None))
           (fun _ => k p caps)
       end) fuel (Pos bef aft) caps
    = k (advance (fst (span f aft)) (Pos bef aft)) caps.
Proof.
  intros Hk. induction aft as [|x aft IH]; intros bef caps fuel Hlen.
  - destruct fuel; reflexivity.
  - destruct fuel as [|fuel]; [simpl in Hlen; lia|].
    cbn [rmatch after before]. destruct (f x) eqn:Hx.
    + assert (Hlt : (length aft <? length (x :: aft))%nat = true)
        by (apply Nat.ltb_lt; simpl; lia).
      rewrite Hlt. simpl in Hlen. rewrite IH by lia.
      simpl span. rewrite Hx. destruct (span f aft) as [run rest] eqn:Es.
      unfold advance. simpl. rewrite <- app_assoc. simpl.
      destruct (k _ caps) eqn:Ek; [reflexivity|].
      exfalso. revert Ek. apply Hk.
    + simpl. rewrite Hx. unfold advance. reflexivity.
Qed.

Lemma rmatch_star_class (f : ascii -> bool) k p caps :
  total k ->
  rmatch (Star (Cls f)) p caps k = k (advance (fst (span f (after p))) p) caps.
Proof.
  intros Hk. destruct p as [bef aft]. cbn [rmatch after].
  now apply star_class_loop.
Qed.

(** With a continuation that cannot fail, the first alternative
    that starts the text is taken. *)
Lemma rmatch_alternatives (ws : list string) k p caps :
  ws <> [] -> total k ->
  rmatch (alternatives ws) p caps k =
  match find (fun w => startswith $w (after p)) ws with
  | Some w => k (advance $w p) caps
  | None => None
  end.
Proof.
  intros Hne Hk. induction ws as [|w ws IH]; [congruence|].
  destruct ws as [|w' ws].
  - cbn [alternatives find]. rewrite rmatch_Lit.
    now destruct (startswith $w (after p)).
  - change (alternatives (w :: w' :: ws))
      with (Alt (Lit $w) (alternatives (w' :: ws))).
    cbn [rmatch find]. rewrite rmatch_Lit.
    destruct (startswith $w (after p)).
    + destruct (k (advance $w p) caps) eqn:E; [reflexivity|].
      exfalso. revert E. apply Hk.
    + simpl. apply IH. discriminate.
Qed.
End MatcherFacts.

Section MatcherSoundness.
Variable A : Type.
Implicit Types (k : cont A) (p q : pos) (caps : captures).

(** Whatever the matcher finds is a match of the pattern. *)
Lemma rmatch_sound (r : regex) :
  forall p caps k a,
    rmatch r p caps k = Some a ->
    exists q caps', den r p q /\ k q caps' = Some a.
Proof.
  induction r as [ | c | f | r1 IH1 r2 IH2 | r1 IH1 r2 IH2 | r IH | r IH
                 | i r IH | | ];
    intros p caps k a H.
  - exists p, caps. split; [constructor | exact H].
  - destruct p as [b aft]. cbn [rmatch after before] in H.
    destruct aft as [|x rest]; [discriminate|].
    destruct (ascii_eqb x c) eqn:E; [|discriminate].
    apply ascii_eqb_eq in E. subst x.
    exists (Pos (c :: b) rest), caps. split; [constructor | exact H].
  - destruct p as [b aft]. cbn [rmatch after before] in H.
    destruct aft as [|x rest]; [discriminate|].
    destruct (f x) eqn:E; [|discriminate].
    exists (Pos (x :: b) rest), caps. split; [now constructor | exact H].
  - cbn [rmatch] in H. apply IH1 in H as (q & caps1 & D1 & H).
    apply IH2 in H as (s & caps2 & D2 & H).
    exists s, caps2. split; [econstructor; eassumption | exact H].
  - cbn [rmatch] in H. destruct (rmatch r1 p caps k) eqn:E; simpl in H.
    + injection H as <-. apply IH1 in E as (q & caps1 & D & E).
      exists q, caps1. split; [now apply den_AltL | exact E].
    + apply IH2 in H as (q & caps1 & D & H).
      exists q, caps1. split; [now apply den_AltR | exact H].
  - cbn [rmatch] in H. destruct (rmatch r p caps k) eqn:E; simpl in H.
    + injection H as <-. apply IH in E as (q & caps1 & D & E).
      exists q, caps1. split; [now apply den_OptSome | exact E].
    + exists p, caps. split; [apply den_OptNone | exact H].
  - cbn [rmatch] in H. revert H. generalize (length (after p)).
    intros fuel. revert p caps.
    induction fuel as [|fuel IHf]; intros p caps H.
    + exists p, caps. split; [apply den_StarNil | exact H].
    + match type of H with
      | orelse ?x _ = _ => destruct x eqn:E
      end; simpl in H.
      * injection H as <-. apply IH in E as (q & caps1 & D & E).
        destruct (length (after q) <? length (after p))%nat; [|discriminate].
        apply IHf in E as (s & caps2 & D2 & E).
        exists s, caps2. split; [eapply den_StarCons; eassumption | exact E].
      * exists p, caps. split; [apply den_StarNil | exact H].
  - cbn [rmatch] in H. apply IH in H as (q & caps1 & D & H).
    eexists q, _. split; [now constructor | exact H].
  - cbn [rmatch] in H. destruct (at_boundary p) eqn:E; [|discriminate].
    exists p, caps. split; [now constructor | exact H].
  - destruct p as [b aft]. cbn [rmatch before] in H.
    destruct b; [|discriminate].
    exists (Pos [] aft), caps. split; [constructor | exact H].
Qed.
End MatcherSoundness.

Lemma match_at_sound (r : regex) (p : pos) (m : rmatch_obj) :
  match_at r p = Some m -> m_start m = p /\ den r p (m_end m).
Proof.
  unfold match_at. intros H.
  apply rmatch_sound in H as (q & caps & D & H).
  injection H as <-. simpl. auto.
Qed.

(** A match reads a part of the subject. *)
Lemma den_reads (r : regex) (p q : pos) :
  den r p q -> exists w, after p = w ++ after q.
Proof.
  induction 1 as [ p | c b r | f x b r Hx | r1 r2 p q s _ [w1 H1] _ [w2 H2]
                 | r1 r2 p q _ IH | r1 r2 p q _ IH | r p q _ IH | r p | r p
                 | r p q s _ [w1 H1] _ [w2 H2] | i r p q _ IH | p Hp | a ];
    try (now exists []); try assumption.
  - now exists [c].
  - now exists [x].
  - exists (w1 ++ w2). now rewrite H1, H2, app_assoc.
  - exists (w1 ++ w2). now rewrite H1, H2, app_assoc.
Qed.

Lemma den_class (f : ascii -> bool) (p q : pos) :
  den (Cls f) p q -> exists x, f x = true /\ after p = x :: after q.
Proof. inversion 1; subst. simpl. eauto. Qed.

Lemma den_star_class (f : ascii -> bool) (p q : pos) :
  den (Star (Cls f)) p q ->
  exists w, forallb f w = true /\ after p = w ++ after q.
Proof.
  intros H. remember (Star (Cls f)) as r eqn:Er.
  induction H; try discriminate.
  - now exists [].
  - injection Er as ->. destruct (IHden2 eq_refl) as (w & Hw & E).
    apply den_class in H as (x & Hx & E1).
    exists (x :: w). simpl. rewrite Hx, Hw, E1, E. auto.
Qed.

Lemma den_opt_char (c : ascii) (p q : pos) :
  den (Opt (Chr c)) p q -> after p = after q \/ after p = c :: after q.
Proof.
  inversion 1 as [ | | | | | | r' p' q' D | | | | | | ]; subst; [|now left].
  inversion D; subst. now right.
Qed.

(** The shape of a number found by [number_re]: an optional minus
    sign, at least one digit, an optional point, digits. *)
Lemma den_number (p q : pos) :
  den number_re p q ->
  exists sign d ds dot ds',
    after p = sign ++ (d :: ds) ++ dot ++ ds' ++ after q /\
    (sign = [] \/ sign = ["-"%char]) /\
    is_digit d = true /\ forallb is_digit ds = true /\
    (dot = [] \/ dot = ["."%char]) /\ forallb is_digit ds' = true.
Proof.
  unfold number_re, Plus. intros H.
  inversion H as [ | | | r1 r2 p0 q1 s0 D1 D2 | | | | | | | | | ]; subst.
  inversion D2 as [ | | | r1 r2 p0 q2 s0 D3 D4 | | | | | | | | | ]; subst.
  inversion D3 as [ | | | r1 r2 p0 q3 s0 D5 D6 | | | | | | | | | ]; subst.
  inversion D4 as [ | | | r1 r2 p0 q4 s0 D7 D8 | | | | | | | | | ]; subst.
  apply den_opt_char in D1, D7.
  apply den_class in D5 as (d & Hd & E5).
  apply den_star_class in D6 as (ds & Hds & E6).
  apply den_star_class in D8 as (ds' & Hds' & E8).
  destruct D1 as [E1 | E1], D7 as [E7 | E7].
  - exists [], d, ds, [], ds'. rewrite E1, E5, E6, E7, E8. simpl.
    rewrite <- ?app_assoc. auto 10.
  - exists [], d, ds, ["."%char], ds'. rewrite E1, E5, E6, E7, E8. simpl.
    rewrite <- ?app_assoc. auto 10.
  - exists ["-"%char], d, ds, [], ds'. rewrite E1, E5, E6, E7, E8. simpl.
    rewrite <- ?app_assoc. auto 10.
  - exists ["-"%char], d, ds, ["."%char], ds'. rewrite E1, E5, E6, E7, E8.
    simpl. rewrite <- ?app_assoc. auto 10.
Qed.

(** ** Numbers in text *)

Lemma scan_digits (d : ascii) (ds dot ds' : str) :
  is_digit d = true -> forallb is_digit ds = true ->
  (dot = [] \/ dot = ["."%char]) -> forallb is_digit ds' = true ->
  exists ip fl q, scan_number ((d :: ds) ++ dot ++ ds') = Some (ip, fl, q, []).
Proof.
  intros Hd Hds Hdot Hds'.
  assert (Hall : forallb is_digit (d :: ds) = true)
    by (simpl; now rewrite Hd, Hds).
  assert (Hend : span is_digit ds' = (ds', [])).
  { rewrite <- (app_nil_r ds') at 1. now apply span_all. }
  unfold scan_number. destruct Hdot as [-> | ->].
  - assert (E : span is_digit ((d :: ds) ++ [] ++ ds') = (d :: ds ++ ds', [])).
    { simpl app at 2. rewrite <- (app_nil_r ((d :: ds) ++ ds')).
      rewrite <- app_comm_cons.
      apply (span_all is_digit (d :: ds ++ ds') []); [|reflexivity].
      simpl. rewrite Hd, forallb_app, Hds, Hds'. reflexivity. }
    rewrite E. eauto.
  - assert (E : span is_digit ((d :: ds) ++ ["."%char] ++ ds')
                = (d :: ds, "."%char :: ds')).
    { apply span_all; [assumption | reflexivity]. }
    rewrite E. rewrite ascii_eqb_refl, Hend. eauto.
Qed.

(** [float] accepts every text of the shape found by [number_re]. *)
Lemma py_float_number (sign : str) (d : ascii) (ds dot ds' : str) :
  (sign = [] \/ sign = ["-"%char]) ->
  is_digit d = true -> forallb is_digit ds = true ->
  (dot = [] \/ dot = ["."%char]) -> forallb is_digit ds' = true ->
  exists q, py_float (sign ++ (d :: ds) ++ dot ++ ds') = Return q.
Proof.
  intros Hsign Hd Hds Hdot Hds'.
  destruct (scan_digits d ds dot ds' Hd Hds Hdot Hds') as (ip & isf & q & Hscan).
  assert (Hns : forallb (fun c => negb (is_space c))
                        (sign ++ (d :: ds) ++ dot ++ ds') = true).
  { rewrite !forallb_app. simpl forallb at 2.
    rewrite (digit_not_space _ Hd). simpl.
    assert (Hdig : forall l, forallb is_digit l = true ->
                             forallb (fun c => negb (is_space c)) l = true).
    { intros l Hl. rewrite forallb_forall in *. intros x Hx.
      now rewrite (digit_not_space _ (Hl x Hx)). }
    rewrite (Hdig _ Hds), (Hdig _ Hds').
    destruct Hsign as [-> | ->], Hdot as [-> | ->]; reflexivity. }
  unfold py_float. rewrite (strip_id _ Hns).
  change ((d :: ds) ++ dot ++ ds') with (d :: ds ++ dot ++ ds') in *.
  destruct Hsign as [-> | ->].
  - change ([] ++ d :: ds ++ dot ++ ds') with (d :: ds ++ dot ++ ds').
    cbv beta iota.
    rewrite (digit_not_minus _ Hd), (digit_not_plus _ Hd), Hscan. eauto.
  - change (["-"%char] ++ d :: ds ++ dot ++ ds')
      with ("-"%char :: d :: ds ++ dot ++ ds').
    cbv beta iota. rewrite ascii_eqb_refl, Hscan. eauto.
Qed.

Lemma firstn_read {T} (w rest : list T) :
  firstn (length (w ++ rest) - length rest) (w ++ rest) = w.
Proof.
  rewrite length_app, Nat.add_sub.
  rewrite firstn_app, Nat.sub_diag, firstn_all. simpl. apply app_nil_r.
Qed.

Lemma match_at_number (p : pos) (m : rmatch_obj) :
  match_at number_re p = Some m ->
  has_digit (after p) = true /\ exists q, py_float (m_text m) = Return q.
Proof.
  intros H. apply match_at_sound in H as [Hs D].
  apply den_number in D as (sign & d & ds & dot & ds' & E & H1 & H2 & H3 & H4 & H5).
  split.
  - rewrite E. unfold has_digit. rewrite existsb_app. simpl.
    rewrite H2. now rewrite orb_true_r.
  - unfold m_text. rewrite Hs, E.
    replace (sign ++ (d :: ds) ++ dot ++ ds' ++ after (m_end m))
      with ((sign ++ (d :: ds) ++ dot ++ ds') ++ after (m_end m))
      by (now rewrite <- !app_assoc).
    rewrite firstn_read. now apply py_float_number.
Qed.

Lemma search_from_some (r : regex) (aft bef : str) (m : rmatch_obj) :
  search_from r bef aft = Some m ->
  exists pre, aft = pre ++ after (m_start m) /\
              match_at r (m_start m) = Some m.
Proof.
  revert bef. induction aft as [|c aft IH]; intros bef H; simpl in H.
  - destruct (match_at r (Pos bef [])) eqn:E; [|discriminate].
    injection H as ->. destruct (match_at_sound _ _ _ E) as [Hs _].
    rewrite Hs. exists []. auto.
  - destruct (match_at r (Pos bef (c :: aft))) eqn:E.
    + injection H as ->. destruct (match_at_sound _ _ _ E) as [Hs _].
      rewrite Hs. exists []. auto.
    + apply IH in H as (pre & Hpre & Hm). exists (c :: pre).
      simpl. now rewrite <- Hpre.
Qed.

Lemma findall_from_In (r : regex) (fuel : nat) (bef aft : str) (w : str) :
  In w (findall_from fuel r bef aft) ->
  exists m, match_at r (m_start m) = Some m /\ w = m_text m.
Proof.
  revert bef aft. induction fuel as [|fuel IH]; intros bef aft H; simpl in H.
  - contradiction.
  - destruct (search_from r bef aft) as [m|] eqn:E; [|contradiction].
    apply search_from_some in E as (pre & _ & Hm).
    destruct (length (after (m_end m)) <? length (after (m_start m)))%nat.
    + destruct H as [<- | H]; [eauto | eapply IH; eassumption].
    + destruct H as [<- | H]; [eauto|].
      destruct (after (m_end m)); [contradiction | eapply IH; eassumption].
Qed.

Lemma map_outcome_total {T U} (f : T -> outcome U) (l : list T) :
  (forall x, In x l -> exists y, f x = Return y) ->
  exists ys, map_outcome f l = Return ys /\ length ys = length l.
Proof.
  induction l as [|x l IH]; intros H; simpl.
  - now exists [].
  - destruct (H x (or_introl eq_refl)) as [y Hy].
    destruct IH as (ys & Hys & Hlen); [intros; apply H; now right|].
    rewrite Hy, Hys. simpl. exists (y :: ys). simpl. auto.
Qed.

Lemma search_no_digit (bef aft : str) :
  has_digit aft = false -> search_from number_re bef aft = None.
Proof.
  intros H. destruct (search_from number_re bef aft) as [m|] eqn:E;
    [|reflexivity].
  apply search_from_some in E as (pre & Hpre & Hm).
  apply match_at_number in Hm as [Hd _].
  rewrite Hpre in H. unfold has_digit in *.
  rewrite existsb_app, Hd, orb_true_r in H. discriminate.
Qed.

Lemma rmatch_Cat {A} (r1 r2 : regex) p caps (k : cont A) :
  rmatch (Cat r1 r2) p caps k
  = rmatch r1 p caps (fun p' caps' => rmatch r2 p' caps' k).
Proof. reflexivity. Qed.

Lemma rmatch_Opt {A} (r : regex) p caps (k : cont A) :
  rmatch (Opt r) p caps k
  = orelse (rmatch r p caps k) (fun _ => k p caps).
Proof. reflexivity. Qed.

Lemma rmatch_Chr_cons {A} (c x : ascii) b rest caps (k : cont A) :
  rmatch (Chr c) (Pos b (x :: rest)) caps k
  = if ascii_eqb x c then k (Pos (x :: b) rest) caps else None.
Proof. reflexivity. Qed.

Lemma rmatch_Cls_cons {A} (f : ascii -> bool) x b rest caps (k : cont A) :
  rmatch (Cls f) (Pos b (x :: rest)) caps k
  = if f x then k (Pos (x :: b) rest) caps else None.
Proof. reflexivity. Qed.

Lemma match_at_digit (bef rest : str) (d : ascii) :
  is_digit d = true -> match_at number_re (Pos bef (d :: rest)) <> None.
Proof.
  intros Hd. unfold match_at, number_re, Plus.
  rewrite rmatch_Cat, rmatch_Opt, rmatch_Chr_cons, (digit_not_minus _ Hd).
  cbv beta iota delta [orelse].
  rewrite !rmatch_Cat, rmatch_Cls_cons, Hd.
  apply rmatch_nofail; [reflexivity|].
  intros p caps. apply rmatch_nofail; [reflexivity|].
  intros p' caps'. discriminate.
Qed.

Lemma search_digit (aft bef : str) :
  has_digit aft = true -> search_from number_re bef aft <> None.
Proof.
  revert bef. induction aft as [|c aft IH]; intros bef H.
  - discriminate.
  - simpl. destruct (match_at number_re (Pos bef (c :: aft))) eqn:E.
    + discriminate.
    + simpl in H. destruct (is_digit c) eqn:Hc.
      * exfalso. revert E. now apply match_at_digit.
      * now apply IH.
Qed.

(** The numbers of a text are always extracted, and there is one
    exactly when the text has a digit. *)
Lemma extract_numbers_total (text : str) :
  exists nums,
    extract_numbers_from_text text = Return nums /\
    (nums = [] <-> has_digit text = false).
Proof.
  unfold extract_numbers_from_text.
  destruct (map_outcome_total py_float (re_findall number_re text))
    as (nums & Hn & Hlen).
  { intros w Hw. apply findall_from_In in Hw as (m & Hm & ->).
    now apply match_at_number in Hm as [_ Hq]. }
  exists nums. split; [assumption|].
  unfold re_findall in *. cbn [findall_from] in *.
  destruct (has_digit text) eqn:Hd.
  - destruct (search_from number_re [] text) as [m|] eqn:E.
    + split; [|discriminate]. intros ->.
      destruct (length (after (m_end m)) <? length (after (m_start m)))%nat;
        discriminate.
    + exfalso. revert E. now apply search_digit.
  - rewrite (search_no_digit [] _ Hd) in Hlen.
    destruct nums; [tauto | discriminate].
Qed.

(** ** Keywords and trigger phrases *)

Lemma find_existsb {T} (f : T -> bool) (l : list T) :
  existsb f l = match find f l with Some _ => true | None => false end.
Proof.
  induction l as [|x l IH]; simpl; [reflexivity|].
  destruct (f x); [reflexivity | exact IH].
Qed.

Lemma total_final (p0 : pos) :
  @total rmatch_obj (fun p' caps => Some (MatchObj p0 p' caps)).
Proof. intros p caps. discriminate. Qed.

Lemma rmatch_boundary_group {A} (i : nat) (r : regex) p caps (k : cont A) :
  rmatch (Cat WordB (Grp i r)) p caps k
  = if at_boundary p
    then rmatch r p caps (fun p' caps' =>
           k p' ((i, firstn (length (after p) - length (after p')) (after p))
                 :: caps'))
    else None.
Proof. reflexivity. Qed.

(** A pattern [\b(w1|w2|...)] matches at a position when the position
    is a word boundary and one of the words starts there. *)
Lemma match_at_keywords (ws : list string) (p : pos) :
  ws <> [] ->
  found (match_at (Cat WordB (Grp 1 (alternatives ws))) p)
  = at_boundary p && existsb (fun w => startswith $w (after p)) ws.
Proof.
  intros Hne. unfold match_at. rewrite rmatch_boundary_group.
  destruct (at_boundary p); [|reflexivity].
  rewrite rmatch_alternatives; [|assumption|intros q c; discriminate].
  rewrite find_existsb. now destruct (find _ ws).
Qed.

Lemma match_at_convert_keywords (p : pos) :
  found (match_at convert_keywords p)
  = at_boundary p && existsb (fun w => startswith $w (after p)) convert_words.
Proof.
  unfold match_at, convert_keywords. rewrite rmatch_boundary_group.
  destruct (at_boundary p); [|reflexivity].
  cbn [rmatch]. rewrite rmatch_Lit.
  cbn [existsb convert_words andb].
  destruct (startswith $"convert" (after p)); [reflexivity|].
  cbn [orelse orb]. rewrite rmatch_Lit.
  change $"to cm" with ($"to " ++ $"cm").
  change $"to m" with ($"to " ++ $"m").
  change $"to kg" with ($"to " ++ $"kg").
  change $"to lb" with ($"to " ++ $"lb").
  rewrite !startswith_app.
  destruct (startswith $"to " (after p)); [|reflexivity].
  rewrite rmatch_alternatives; [|discriminate|intros q c; discriminate].
  cbn [find andb advance after].
  repeat match goal with
         | |- context [startswith ?w ?s] => destruct (startswith w s)
         end; reflexivity.
Qed.

Lemma search_keywords (r : regex) (ws : list string) :
  (forall p, found (match_at r p)
             = at_boundary p
               && existsb (fun w => startswith $w (after p)) ws) ->
  forall aft bef, found (search_from r bef aft) = keyword_scan ws bef aft.
Proof.
  intros Hm. induction aft as [|c aft IH]; intros bef; simpl.
  - rewrite <- Hm. destruct (match_at r (Pos bef [])); reflexivity.
  - rewrite <- Hm. destruct (match_at r (Pos bef (c :: aft))); simpl.
    + reflexivity.
    + apply IH.
Qed.

Lemma search_convert_keywords (t : str) :
  found (re_search convert_keywords t) = has_keyword convert_words t.
Proof. apply search_keywords, match_at_convert_keywords. Qed.

Lemma search_stats_keywords (t : str) :
  found (re_search stats_keywords t)
  = has_keyword ["mean"; "median"; "average"] t.
Proof.
  apply search_keywords. intros p. now apply match_at_keywords.
Qed.

Lemma search_csv_keywords (t : str) :
  found (re_search csv_keywords t)
  = has_keyword ["csv"; "spreadsheet"; "save"] t.
Proof.
  apply search_keywords. intros p. now apply match_at_keywords.
Qed.

Lemma skipn_span (f : ascii -> bool) (s : str) :
  skipn (length (fst (span f s))) s = snd (span f s).
Proof.
  induction s as [|c s IH]; simpl; [reflexivity|].
  destruct (f c); [|reflexivity].
  destruct (span f s) as [run rest]. simpl in *. exact IH.
Qed.

Lemma rmatch_Bol_start {A} (s : str) caps (k : cont A) :
  rmatch Bol (Pos [] s) caps k = k (Pos [] s) caps.
Proof. reflexivity. Qed.

Lemma rmatch_Grp {A} (i : nat) (r : regex) p caps (k : cont A) :
  rmatch (Grp i r) p caps k
  = rmatch r p caps (fun p' caps' =>
      k p' ((i, firstn (length (after p) - length (after p')) (after p))
            :: caps')).
Proof. reflexivity. Qed.

(** Removing a match of the trigger pattern removes the first trigger
    phrase that starts the text, with the blanks after it. *)
Lemma sub_trigger (text : str) :
  re_sub_anchored trigger_re text = strip_trigger text.
Proof.
  unfold re_sub_anchored, strip_trigger, match_at, trigger_re.
  rewrite rmatch_Cat, rmatch_Bol_start, rmatch_Cat, rmatch_Grp.
  rewrite rmatch_alternatives.
  - cbn [after]. destruct (find _ _) as [w|]; [|reflexivity].
    rewrite rmatch_star_class by (intros q c; discriminate).
    cbn [m_end advance after]. rewrite skipn_span. symmetry. apply lstrip_span.
  - discriminate.
  - intros q c. apply (rmatch_nofail _ (Star (Cls is_space))); [reflexivity|].
    intros q' c'. discriminate.
Qed.

(** ** The evaluator *)

Section ExprInduction.
Variable P : expr -> Prop.
Hypothesis HNum : forall n, P (Num n).
Hypothesis HStr : forall s, P (Str s).
Hypothesis HName : forall id, P (Name id).
Hypothesis HAttribute : forall v a, P v -> P (Attribute v a).
Hypothesis HBinOp : forall l o r, P l -> P r -> P (BinOp l o r).
Hypothesis HUnaryOp : forall o x, P x -> P (UnaryOp o x).
Hypothesis HCall :
  forall f args kws, P f -> Forall P args -> P (Call f args kws).
Hypothesis HExpression : forall b, P b -> P (Expression b).
Hypothesis HOther : forall kind cs, Forall P cs -> P (Other kind cs).

(** Induction on trees, with the hypothesis for every positional
    argument of a call and every child of another node. *)
Fixpoint expr_induction (e : expr) : P e :=
  match e with
  | Num n => HNum n
  | Str s => HStr s
  | Name id => HName id
  | Attribute v a => HAttribute v a (expr_induction v)
  | BinOp l o r => HBinOp l o r (expr_induction l) (expr_induction r)
  | UnaryOp o x => HUnaryOp o x (expr_induction x)
  | Call f args kws =>
    HCall f args kws (expr_induction f)
          ((fix all (l : list expr) : Forall P l :=
              match l with
              | [] => Forall_nil P
              | x :: l' => Forall_cons x (expr_induction x) (all l')
              end) args)
  | Expression b => HExpression b (expr_induction b)
  | Other kind cs =>
    HOther kind cs
           ((fix all (l : list expr) : Forall P l :=
               match l with
               | [] => Forall_nil P
               | x :: l' => Forall_cons x (expr_induction x) (all l')
               end) cs)
  end.
End ExprInduction.

Lemma trace_bind {A B} (m : M A) (f : A -> M B) :
  trace_of (bind m f)
  = trace_of m ++ match result_of m with
                  | Return a => trace_of (f a)
                  | Raise _ => []
                  end.
Proof.
  destruct m as [t [a | e]]; simpl.
  - now destruct (f a).
  - now rewrite app_nil_r.
Qed.

Lemma result_bind {A B} (m : M A) (f : A -> M B) :
  result_of (bind m f)
  = match result_of m with
    | Return a => result_of (f a)
    | Raise e => Raise e
    end.
Proof.
  destruct m as [t [a | e]]; simpl; [|reflexivity]. now destruct (f a).
Qed.

Lemma bind_ret {A B} (a : A) (f : A -> M B) : bind (ret a) f = f a.
Proof. unfold bind, ret. now destruct (f a). Qed.

Section EvaluatorFacts.
Variable math_module : dict string pyobject.
Variable real_pow : Q -> Q -> outcome value.

#[local] Abbreviation eval := (_eval math_module real_pow).
#[local] Abbreviation allowed :=
  (fun ev => whitelisted math_module real_pow ev = true).

Lemma eval_args_trace (args : list expr) :
  Forall (fun e => Forall allowed (trace_of (eval e))) args ->
  Forall allowed (trace_of (eval_args eval args)).
Proof.
  induction 1 as [|e args He _ IH]; simpl.
  - constructor.
  - rewrite trace_bind. apply Forall_app. split; [assumption|].
    destruct (result_of (eval e)); [|constructor].
    rewrite trace_bind. apply Forall_app. split; [assumption|].
    destruct (result_of (eval_args eval args)); constructor.
Qed.

(** Every call the evaluator makes goes through the tables. *)
Lemma eval_trace_whitelisted (e : expr) :
  Forall allowed (trace_of (eval e)).
Proof.
  induction e as [ n | s | id | v a IH | l o r IHl IHr | o x IH
                 | f args kws IHf IHargs | b IH | kind cs IH ]
    using expr_induction; try (now constructor).
  - cbn [_eval]. unfold operator_for.
    destruct (dict_get optype_eqb (BinT o) (ALLOWED_OPERATORS real_pow))
      as [fn|] eqn:E; [|constructor].
    rewrite bind_ret.
    rewrite trace_bind. apply Forall_app. split; [assumption|].
    destruct (result_of (eval l)); [|constructor].
    rewrite trace_bind. apply Forall_app. split; [assumption|].
    destruct (result_of (eval r)); [|constructor].
    rewrite trace_bind. apply Forall_app. split.
    + constructor; [|constructor]. simpl. unfold dict_mem. now rewrite E.
    + simpl. constructor.
  - cbn [_eval]. unfold operator_for.
    destruct (dict_get optype_eqb (UnT o) (ALLOWED_OPERATORS real_pow))
      as [fn|] eqn:E; [|constructor].
    rewrite bind_ret.
    rewrite trace_bind. apply Forall_app. split; [assumption|].
    destruct (result_of (eval x)); [|constructor].
    rewrite trace_bind. apply Forall_app. split.
    + constructor; [|constructor]. simpl. unfold dict_mem. now rewrite E.
    + simpl. constructor.
  - cbn [_eval]. destruct f; try (now constructor).
    cbn [func_id]. rewrite bind_ret.
    destruct (dict_get String.eqb id (ALLOWED_NAMES math_module))
      as [obj|] eqn:E; [|constructor].
    rewrite trace_bind. apply Forall_app. split.
    + now apply eval_args_trace.
    + destruct (result_of (eval_args eval args)); [|constructor].
      rewrite trace_bind. apply Forall_app. split.
      * constructor; [|constructor]. simpl. unfold dict_mem. now rewrite E.
      * simpl. constructor.
  - exact IH.
Qed.

(** A call of a name outside the function table is refused before
    any argument is evaluated. *)
Lemma eval_disallowed (id : string) args kws :
  dict_mem String.eqb id (ALLOWED_NAMES math_module) = false ->
  eval (Call (Name id) args kws) = ([], Raise (disallowed id)).
Proof.
  unfold dict_mem. intros H. cbn [_eval func_id]. rewrite bind_ret.
  destruct (dict_get String.eqb id (ALLOWED_NAMES math_module));
    [discriminate | reflexivity].
Qed.

Lemma eval_args_raises (args : list expr) (id : string) :
  Forall (fun e => In id (positional_call_names e) ->
                   exists ex, result_of (eval e) = Raise ex) args ->
  In id (flat_map positional_call_names args) ->
  exists ex, result_of (eval_args eval args) = Raise ex.
Proof.
  induction 1 as [|e args He _ IH]; simpl; intros Hin.
  - contradiction.
  - rewrite result_bind. apply in_app_or in Hin.
    destruct (result_of (eval e)) as [v | ex] eqn:E; [|eauto].
    destruct Hin as [Hin | Hin].
    + destruct (He Hin) as [ex Hex]. discriminate.
    + destruct (IH Hin) as [ex Hex]. rewrite result_bind, Hex. eauto.
Qed.

(** A tree with a call of a name outside the function table, in a
    place other than a keyword argument, has no value. *)
Lemma eval_positional_raises (e : expr) (id : string) :
  dict_mem String.eqb id (ALLOWED_NAMES math_module) = false ->
  In id (positional_call_names e) ->
  exists ex, result_of (eval e) = Raise ex.
Proof.
  intros Hid.
  induction e as [ n | s | i | v a IH | l o r IHl IHr | o x IH
                 | f args kws IHf IHargs | b IH | kind cs IH ]
    using expr_induction; intros Hin; try (simpl; eauto; fail).
  - contradiction.
  - cbn [_eval]. unfold operator_for.
    destruct (dict_get optype_eqb (BinT o) (ALLOWED_OPERATORS real_pow));
      [|simpl; eauto].
    rewrite bind_ret, result_bind.
    simpl in Hin. apply in_app_or in Hin.
    destruct (result_of (eval l)) as [a | ex] eqn:El; [|eauto].
    rewrite result_bind.
    destruct (result_of (eval r)) as [b | ex] eqn:Er; [|eauto].
    destruct Hin as [Hin | Hin];
      [destruct (IHl Hin) | destruct (IHr Hin)]; discriminate.
  - cbn [_eval]. unfold operator_for.
    destruct (dict_get optype_eqb (UnT o) (ALLOWED_OPERATORS real_pow));
      [|simpl; eauto].
    rewrite bind_ret, result_bind.
    destruct (result_of (eval x)) as [a | ex] eqn:Ex; [|eauto].
    destruct (IH Hin). discriminate.
  - cbn [_eval]. destruct f; try (simpl; eauto; fail).
    cbn [func_id]. rewrite bind_ret.
    destruct (dict_get String.eqb id0 (ALLOWED_NAMES math_module))
      as [obj|] eqn:E; [|simpl; eauto].
    rewrite result_bind. simpl in Hin. destruct Hin as [-> | Hin].
    + unfold dict_mem in Hid. rewrite E in Hid. discriminate.
    + destruct (eval_args_raises args id) as [ex Hex]; [| assumption |].
      * eapply Forall_impl; [|exact IHargs]. auto.
      * rewrite Hex. eauto.
Qed.

(** A call whose callee is not a plain name faults on [node.func.id]
    before the function table is consulted. *)
Lemma eval_callee_not_name (f : expr) args kws :
  match f with
  | Name _ => True
  | _ =>
    eval (Call f args kws)
    = ([], Raise (AttributeError
                    ("'" ++ node_kind f ++ "' object has no attribute 'id'")))
  end.
Proof. destruct f; constructor. Qed.

(** Negations nested to any depth are evaluated. *)
Lemma eval_nest (n : nat) :
  result_of (eval (nest n)) = Return (VInt ((-1) ^ Z.of_nat n)).
Proof.
  induction n as [|n IH].
  - reflexivity.
  - cbn [nest _eval].
    change (operator_for real_pow (UnT USub)) with (ret (unary op_neg)).
    rewrite bind_ret, result_bind, IH, result_bind.
    cbn [emit result_of snd lift unary op_neg].
    f_equal. f_equal. rewrite Nat2Z.inj_succ, Z.pow_succ_r by lia. lia.
Qed.

Lemma depth_nest (n : nat) : depth (nest n) = S n.
Proof. induction n as [|n IH]; simpl; [reflexivity | now rewrite IH]. Qed.
End EvaluatorFacts.

(** ** Unit conversion *)

Lemma convert_kg_lb (x : value) :
  convert_units x $"kg" $"lb" = Return (fl (to_Q x / kg_per_lb)).
Proof. reflexivity. Qed.

Lemma convert_lb_kg (q : Q) :
  convert_units (VFloat q) $"lb" $"kg" = Return (fl (q * kg_per_lb)).
Proof. reflexivity. Qed.

Lemma kg_lb_kg_exact (q : Q) : (Qred (Qred (q / kg_per_lb) * kg_per_lb) == q)%Q.
Proof.
  rewrite !Qred_correct. field. unfold kg_per_lb. intros H. discriminate H.
Qed.

(** ** Mean and median *)

Lemma Qleb_total (x y : Q) : Qleb x y = false -> (y <= x)%Q.
Proof.
  unfold Qleb. intros H. apply Qlt_le_weak, Qnot_le_lt.
  intros Hle. apply Qle_bool_iff in Hle. congruence.
Qed.

Lemma insert_sorted_perm (x : Q) (l : list Q) :
  Permutation (x :: l) (insert_sorted x l).
Proof.
  induction l as [|y l IH]; simpl.
  - apply Permutation_refl.
  - destruct (Qleb x y).
    + apply Permutation_refl.
    + eapply perm_trans; [apply perm_swap|]. now apply perm_skip.
Qed.

Lemma insert_sorted_sorted (x : Q) (l : list Q) :
  Sorted Qle l -> Sorted Qle (insert_sorted x l).
Proof.
  induction 1 as [|y l Hs IH Hhd]; simpl.
  - repeat constructor.
  - destruct (Qleb x y) eqn:E.
    + constructor; [now constructor|]. constructor.
      now apply Qle_bool_iff.
    + constructor; [assumption|].
      destruct l as [|z l]; simpl.
      * constructor. now apply Qleb_total.
      * destruct (Qleb x z) eqn:E'.
        -- constructor. now apply Qleb_total.
        -- inversion Hhd; subst. now constructor.
Qed.

Lemma sorted_perm (data : list Q) : Permutation data (sorted data).
Proof.
  induction data as [|x data IH]; simpl.
  - constructor.
  - eapply perm_trans; [|apply insert_sorted_perm]. now apply perm_skip.
Qed.

Lemma sorted_sorted (data : list Q) : Sorted Qle (sorted data).
Proof.
  induction data as [|x data IH]; simpl.
  - constructor.
  - now apply insert_sorted_sorted.
Qed.

Lemma mod2_odd (n : nat) : (n mod 2 =? 1)%nat = Nat.odd n.
Proof.
  rewrite <- Nat.bit0_mod, Nat.bit0_odd. now destruct (Nat.odd n).
Qed.

Lemma median_middle (data : list Q) :
  data <> [] ->
  exists m, median data = Return m /\ (m == middle (sorted data))%Q.
Proof.
  intros Hne. unfold median, middle.
  assert (Hlen : length (sorted data) = length data)
    by (symmetry; apply Permutation_length, sorted_perm).
  assert (Hpos : length (sorted data) <> 0%nat).
  { rewrite Hlen. destruct data; [congruence | discriminate]. }
  destruct (Nat.eqb_spec (length (sorted data)) 0); [contradiction|].
  rewrite mod2_odd, <- Nat.negb_even.
  destruct (Nat.even (length (sorted data))); cbn [negb].
  - eexists. split; [reflexivity|]. apply Qred_correct.
  - eexists. split; [reflexivity|]. apply Qeq_refl.
Qed.

(** ** CSV text *)

Lemma numeric_not_special (c : ascii) :
  numeric_char c = true ->
  ascii_eqb c ","%char || ascii_eqb c quote_char
  || ascii_eqb c CR || ascii_eqb c LF = false.
Proof. by_cases_on_char c. Qed.

Lemma numeric_no_quoting (s : str) :
  forallb numeric_char s = true -> needs_quoting s = false.
Proof.
  unfold needs_quoting. induction s as [|c s IH]; simpl; [reflexivity|].
  intros H. apply andb_true_iff in H as [Hc Hs].
  now rewrite (numeric_not_special c Hc), IH.
Qed.

Lemma uint_numeric (d : Decimal.uint) :
  forallb numeric_char (list_ascii_of_string (NilEmpty.string_of_uint d))
  = true.
Proof. induction d; simpl; auto. Qed.

Lemma int_str_numeric (z : Z) : forallb numeric_char (int_str z) = true.
Proof.
  unfold int_str, NilZero.string_of_int, NilZero.string_of_uint.
  destruct (Z.to_int z) as [d | d]; destruct d; simpl;
    try reflexivity; apply uint_numeric.
Qed.

Lemma digit_char_numeric (d : Z) :
  0 <= d < 10 -> numeric_char (digit_char d) = true.
Proof.
  intros H.
  assert (E : d = 0 \/ d = 1 \/ d = 2 \/ d = 3 \/ d = 4 \/ d = 5 \/ d = 6
              \/ d = 7 \/ d = 8 \/ d = 9) by lia.
  repeat (destruct E as [-> | E]; [reflexivity|]). now subst.
Qed.

Lemma fraction_digits_numeric (fuel : nat) (rem den : Z) :
  0 <= rem < den ->
  forallb numeric_char (fraction_digits fuel rem den) = true.
Proof.
  revert rem. induction fuel as [|fuel IH]; intros rem H.
  - reflexivity.
  - cbn [fraction_digits]. destruct (rem =? 0); [reflexivity|].
    cbn [forallb].
    assert (Hden : 0 < den) by lia.
    assert (Hdigit : 0 <= 10 * rem / den < 10).
    { split.
      - apply Z.div_pos; lia.
      - apply Z.div_lt_upper_bound; lia. }
    assert (Hrem : 0 <= (10 * rem) mod den < den)
      by (apply Z.mod_pos_bound; exact Hden).
    rewrite (digit_char_numeric _ Hdigit), (IH _ Hrem). reflexivity.
Qed.

Lemma float_repr_numeric (q : Q) : forallb numeric_char (float_repr q) = true.
Proof.
  unfold float_repr. cbv zeta.
  set (a := Z.abs (Qnum (Qred q))). set (d := Zpos (Qden (Qred q))).
  assert (Hf : forallb numeric_char (fraction_digits 17 (a mod d) d) = true).
  { apply fraction_digits_numeric. apply Z.mod_pos_bound. reflexivity. }
  revert Hf. generalize (fraction_digits 17 (a mod d) d). intros frac Hf.
  rewrite !forallb_app, int_str_numeric. cbn [forallb andb].
  assert (Hsign : forallb numeric_char
                    (if Qnum (Qred q) <? 0 then ["-"%char] else []) = true)
    by (destruct (Qnum (Qred q) <? 0); reflexivity).
  rewrite Hsign. destruct frac as [|c frac]; [reflexivity|].
  rewrite Hf. reflexivity.
Qed.

(** A row with an index and a value is written without quotes. *)
Lemma writerow_number (i : Z) (v : Q) (out : str) :
  writerow [CInt i; CFloat v] out = out ++ csv_row (i, v).
Proof.
  unfold writerow, csv_row, csv_field. simpl map. cbn [cell_text].
  rewrite (numeric_no_quoting _ (int_str_numeric i)).
  rewrite (numeric_no_quoting _ (float_repr_numeric v)).
  simpl. now rewrite <- app_assoc.
Qed.

Lemma written_rows (rows : list (Z * Q)) (out : str) :
  fold_left (fun out iv => writerow [CInt (fst iv); CFloat (snd iv)] out)
            rows out
  = out ++ flat_map csv_row rows.
Proof.
  revert out. induction rows as [|[i v] rows IH]; intros out; simpl.
  - now rewrite app_nil_r.
  - rewrite IH, writerow_number. now rewrite <- app_assoc.
Qed.

Lemma enumerate_spec {T} (l : list T) (start : Z) (n : nat) (d : Z * T) :
  (n < length l)%nat ->
  fst (nth n (enumerate start l) d) = start + Z.of_nat n /\
  nth_error l n = Some (snd (nth n (enumerate start l) d)).
Proof.
  revert start n. induction l as [|x l IH]; intros start n H; simpl in H.
  - lia.
  - destruct n as [|n]; simpl.
    + split; [lia | reflexivity].
    + destruct (IH (start + 1) n ltac:(lia)) as [H1 H2].
      split; [rewrite H1; lia | exact H2].
Qed.

Lemma enumerate_length {T} (l : list T) (start : Z) :
  length (enumerate start l) = length l.
Proof.
  revert start. induction l as [|x l IH]; intros start; simpl; auto.
Qed.

(** What the stats handler answers, case by case. *)
Lemma handle_stats_cases :
  forall text,
      exists nums med,
        extract_numbers_from_text text = Return nums
        /\ (nums = [] <-> has_digit text = false)
        /\ (nums <> [] ->
            exists s, Permutation nums s /\ Sorted Qle s
                      /\ (med == middle s)%Q)
        /\ handle_stats text
           = if negb (has_digit text) then
               Return [ ("status", FStr "error"); ("intent", FStr "stats");
                        ("error", FStr "No numbers found") ]
             else if contains $"mean" text || contains $"average" text then
               Return [ ("status", FStr "ok"); ("intent", FStr "stats");
                        ("operation", FStr "mean");
                        ("result",
                         FNum (fl (Qsum nums
                                   / inject_Z (Z.of_nat (length nums))))) ]
             else if contains $"median" text then
               Return [ ("status", FStr "ok"); ("intent", FStr "stats");
                        ("operation", FStr "median");
                        ("result", FNum (VFloat med)) ]
             else
               Return [ ("status", FStr "error"); ("intent", FStr "stats");
                        ("error", FStr "No valid operation found") ].
Proof.
  intros text.
  destruct (extract_numbers_total text) as (nums & Hn & Hiff).
  destruct nums as [|q nums].
  - exists [], 0%Q. split; [exact Hn|]. split; [exact Hiff|].
    split; [congruence|].
    unfold handle_stats. rewrite Hn. cbn [obind].
    now rewrite (proj1 Hiff eq_refl).
  - destruct (median_middle (q :: nums)) as (med & Hmed & Hmid);
      [discriminate|].
    exists (q :: nums), med. split; [exact Hn|]. split; [exact Hiff|].
    split.
    + intros _. exists (sorted (q :: nums)).
      split; [apply sorted_perm|]. split; [apply sorted_sorted | exact Hmid].
    + assert (Hd : has_digit text = true).
      { destruct (has_digit text); [reflexivity|].
        destruct Hiff as [_ H]. discriminate (H eq_refl). }
      unfold handle_stats. rewrite Hn, Hd. cbn [obind negb].
      destruct (contains $"mean" text || contains $"average" text);
        [reflexivity|].
      destruct (contains $"median" text); [|reflexivity].
      rewrite Hmed. reflexivity.
Qed.



(** * The claims *)

(** C1: handlers are claimed never to raise.  The calculate handler
    has no failure path of its own: the exception of the evaluator
    leaves [agent_process] for the text [calculate 1/0], and so does
    the exception of the unit converter for [convert 10 kg to xyz],
    whatever the [math] module holds. *)
Theorem C1_handlers_let_exceptions_escape :
  forall math_module real_pow,
    agent_process py_parse math_module real_pow $"calculate 1/0"
    = Raise (ZeroDivisionError "division by zero")
    /\ agent_process py_parse math_module real_pow $"calculate 2 +"
       = Raise (SyntaxError "invalid syntax")
    /\ agent_process py_parse math_module real_pow $"convert 10 kg to xyz"
       = Raise (ValueError "No converter registered for kg -> xyz").
Proof.
  intros math_module real_pow. repeat apply conj; vm_compute; reflexivity.
Qed.







(** C4, as stated, fails: the classifier does not take the prefixes
    [what is] and [evaluate] as signs of a calculation.  A text that
    starts with one of them and has no arithmetic token is classified
    as unknown. *)
Lemma C4_counterexample :
  startswith $"what is" (strip (lower $"what is 5")) = true
  /\ classify_intent $"what is 5" = "unknown"
  /\ startswith $"evaluate" (strip (lower $"evaluate 7")) = true
  /\ classify_intent $"evaluate 7" = "unknown".
Proof. repeat apply conj; vm_compute; reflexivity. Qed.

(** C4, amended: [classify_intent] lowercases and strips the text and
    checks, in this order, for a convert keyword, a stats keyword and
    a csv keyword starting at a word boundary, then for the prefix
    [calculate] or one of the tokens [+ - * / sqrt ^], and answers
    with the first category that matches, else unknown; the answer
    does not depend on the case of the text, and
    [classify_intent "mean of 2 + 2"] is stats. *)
Theorem C4_classification_order :
  forall text,
    classify_intent text
    = (let t := strip (lower text) in
       if has_keyword convert_words t then "convert"
       else if has_keyword ["mean"; "median"; "average"] t then "stats"
       else if has_keyword ["csv"; "spreadsheet"; "save"] t
            then "generate_csv"
       else if startswith $"calculate" t
               || existsb (fun tok => contains $tok t)
                          ["+"; "-"; "*"; "/"; "sqrt"; "^"]
            then "calculate"
       else "unknown")
    /\ classify_intent (lower text) = classify_intent text
    /\ classify_intent $"mean of 2 + 2" = "stats"
    /\ (existsb (fun tok => contains $tok $"mean of 2 + 2")
                ["+"; "-"; "*"; "/"; "sqrt"; "^"]) = true.
Proof.
  intros text. split; [|split; [|split]].
  - unfold classify_intent. cbv zeta.
    now rewrite search_convert_keywords, search_stats_keywords,
      search_csv_keywords.
  - unfold classify_intent. now rewrite lower_idem.
  - vm_compute. reflexivity.
  - vm_compute. reflexivity.
Qed.

(** C5: [agent_process "calculate 2 + 3 * 4"] is the record with
    status ok, intent calculate and result 14, and the calculate
    handler removes a leading trigger phrase (with the blanks after
    it), strips the text, writes every caret as the power operator and
    hands the text to the evaluator, whose value it reports. *)
Theorem C5_calculate :
  forall (ast_parse : str -> outcome expr) math_module real_pow,
    agent_process py_parse math_module real_pow $"calculate 2 + 3 * 4"
    = Return [ ("status", FStr "ok"); ("intent", FStr "calculate");
               ("result", FNum (VInt 14)) ]
    /\ forall text,
        let t := caret_to_power (strip (strip_trigger text)) in
        existsb (fun c => ascii_eqb c "^"%char) t = false
        /\ handle_calculate ast_parse math_module real_pow text
           = match result_of (safe_eval ast_parse math_module real_pow t) with
             | Return result =>
               Return [ ("status", FStr "ok"); ("intent", FStr "calculate");
                        ("result", FNum result) ]
             | Raise e => Raise e
             end.
Proof.
  intros ast_parse math_module real_pow. split.
  - vm_compute. reflexivity.
  - intros text t. split.
    + apply caret_to_power_no_caret.
    + unfold handle_calculate. cbv zeta.
      rewrite sub_trigger, replace_caret. reflexivity.
Qed.


(** C7: for every text the stats handler returns a record.  Without a
    numeric substring (a digit) it is the no-numbers error; otherwise
    it is the arithmetic mean when the text contains [mean] or
    [average], else the median (the middle of the sorted numbers,
    the mean of the two middle ones on even count) when it contains
    [median], else the no-operation error.  For [mean of 5, 10, 15]
    the agent answers ok, stats, mean, 10. *)
Theorem C7_stats :
  (forall text,
      exists nums med,
        extract_numbers_from_text text = Return nums
        /\ (nums = [] <-> has_digit text = false)
        /\ (nums <> [] ->
            exists s, Permutation nums s /\ Sorted Qle s
                      /\ (med == middle s)%Q)
        /\ handle_stats text
           = if negb (has_digit text) then
               Return [ ("status", FStr "error"); ("intent", FStr "stats");
                        ("error", FStr "No numbers found") ]
             else if contains $"mean" text || contains $"average" text then
               Return [ ("status", FStr "ok"); ("intent", FStr "stats");
                        ("operation", FStr "mean");
                        ("result",
                         FNum (fl (Qsum nums
                                   / inject_Z (Z.of_nat (length nums))))) ]
             else if contains $"median" text then
               Return [ ("status", FStr "ok"); ("intent", FStr "stats");
                        ("operation", FStr "median");
                        ("result", FNum (VFloat med)) ]
             else
               Return [ ("status", FStr "error"); ("intent", FStr "stats");
                        ("error", FStr "No valid operation found") ])
  /\ forall math_module real_pow,
      agent_process py_parse math_module real_pow $"mean of 5, 10, 15"
      = Return [ ("status", FStr "ok"); ("intent", FStr "stats");
                 ("operation", FStr "mean"); ("result", FNum (VFloat 10)) ].
Proof.
  split; [exact handle_stats_cases | intros; vm_compute; reflexivity].
Qed.


(** C9: the classifier lowercases the text, the stats handler does
    not.  For [Mean of 5, 10, 15] the intent is stats, yet the handler
    finds none of its keywords in the raw text and answers with the
    no-operation error, while the lowercased text gives the mean; in
    general a text with a number and none of the lowercase keywords
    gets the no-operation error, whatever its classification. *)
Theorem C9_stats_keywords_case_sensitive :
  classify_intent $"Mean of 5, 10, 15" = "stats"
  /\ handle_stats $"Mean of 5, 10, 15"
     = Return [ ("status", FStr "error"); ("intent", FStr "stats");
                ("error", FStr "No valid operation found") ]
  /\ (forall math_module real_pow,
         agent_process py_parse math_module real_pow $"Mean of 5, 10, 15"
         = Return [ ("status", FStr "error"); ("intent", FStr "stats");
                    ("error", FStr "No valid operation found") ])
  /\ handle_stats (lower $"Mean of 5, 10, 15")
     = Return [ ("status", FStr "ok"); ("intent", FStr "stats");
                ("operation", FStr "mean"); ("result", FNum (VFloat 10)) ]
  /\ forall text,
      classify_intent (lower text) = classify_intent text
      /\ (has_digit text = true ->
          contains $"mean" text = false ->
          contains $"average" text = false ->
          contains $"median" text = false ->
          handle_stats text
          = Return [ ("status", FStr "error"); ("intent", FStr "stats");
                     ("error", FStr "No valid operation found") ]).
Proof.
  split; [vm_compute; reflexivity|].
  split; [vm_compute; reflexivity|].
  split; [intros; vm_compute; reflexivity|].
  split; [vm_compute; reflexivity|].
  intros text. split.
  - unfold classify_intent. now rewrite lower_idem.
  - intros Hd Hmean Havg Hmed.
    destruct (handle_stats_cases text) as (nums & med & _ & _ & _ & H).
    rewrite H, Hd, Hmean, Havg, Hmed. reflexivity.
Qed.

(** C10: there are texts that parse and whose call node has a callee
    that is not a plain name, [math.sqrt(2)] and [(1)(2)]; for them
    the access to [node.func.id] faults with an attribute error before
    the function table is consulted and before anything is invoked,
    so the failure is none of the evaluator's own errors (the
    disallowed-function [ValueError], the unsupported-expression
    [TypeError]) nor a syntax error, and it leaves the agent.  The same
    holds for every call whose callee is not a name. *)
Theorem C10_callee_attribute_fault :
  forall math_module real_pow,
    py_parse $"math.sqrt(2)"
    = Return (Call (Attribute (Name "math") "sqrt") [Num (VInt 2)] [])
    /\ safe_eval py_parse math_module real_pow $"math.sqrt(2)"
       = ([], Raise (AttributeError
                       "'Attribute' object has no attribute 'id'"))
    /\ py_parse $"(1)(2)" = Return (Call (Num (VInt 1)) [Num (VInt 2)] [])
    /\ safe_eval py_parse math_module real_pow $"(1)(2)"
       = ([], Raise (AttributeError
                       "'Constant' object has no attribute 'id'"))
    /\ agent_process py_parse math_module real_pow $"calculate math.sqrt(2)"
       = Raise (AttributeError "'Attribute' object has no attribute 'id'")
    /\ forall f args kws,
        match f with
        | Name _ => True
        | _ =>
          _eval math_module real_pow (Call f args kws)
          = ([], Raise (AttributeError
                          ("'" ++ node_kind f
                               ++ "' object has no attribute 'id'")))
        end.
Proof.
  intros math_module real_pow.
  split; [vm_compute; reflexivity|].
  split; [vm_compute; reflexivity|].
  split; [vm_compute; reflexivity|].
  split; [vm_compute; reflexivity|].
  split; [vm_compute; reflexivity|].
  apply eval_callee_not_name.
Qed.

(** * Further properties *)

(** ** The evaluator *)

Lemma eval_binop_allowed math_module real_pow (l r : expr) (o : operator)
      (f : pyfunc) :
  dict_get optype_eqb (BinT o) (ALLOWED_OPERATORS real_pow) = Some f ->
  result_of (_eval math_module real_pow (BinOp l o r))
  = match result_of (_eval math_module real_pow l) with
    | Return a =>
      match result_of (_eval math_module real_pow r) with
      | Return b => f [a; b]
      | Raise e => Raise e
      end
    | Raise e => Raise e
    end.
Proof.
  intros Hf. cbn [_eval]. unfold operator_for. rewrite Hf.
  rewrite bind_ret, result_bind.
  destruct (result_of (_eval math_module real_pow l)); [|reflexivity].
  rewrite result_bind.
  destruct (result_of (_eval math_module real_pow r)); [|reflexivity].
  rewrite result_bind. reflexivity.
Qed.

Lemma eval_unaryop_allowed math_module real_pow (x : expr) (o : unaryop)
      (f : pyfunc) :
  dict_get optype_eqb (UnT o) (ALLOWED_OPERATORS real_pow) = Some f ->
  result_of (_eval math_module real_pow (UnaryOp o x))
  = match result_of (_eval math_module real_pow x) with
    | Return a => f [a]
    | Raise e => Raise e
    end.
Proof.
  intros Hf. cbn [_eval]. unfold operator_for. rewrite Hf.
  rewrite bind_ret, result_bind.
  destruct (result_of (_eval math_module real_pow x)); [|reflexivity].
  rewrite result_bind. reflexivity.
Qed.



Lemma eval_args_returns math_module real_pow (args : list expr) :
  Forall (fun e => supported math_module e = false ->
                   exists ex, result_of (_eval math_module real_pow e)
                              = Raise ex) args ->
  forallb (supported math_module) args = false ->
  exists ex,
    result_of (eval_args (_eval math_module real_pow) args) = Raise ex.
Proof.
  induction 1 as [|e args He _ IH]; simpl; intros Hall.
  - discriminate.
  - rewrite result_bind.
    destruct (result_of (_eval math_module real_pow e)) as [v | ex] eqn:E;
      [|eauto].
    destruct (supported math_module e) eqn:Hs; simpl in Hall.
    + destruct (IH Hall) as [ex Hex]. rewrite result_bind, Hex. eauto.
    + destruct (He eq_refl) as [ex Hex]. discriminate.
Qed.

Lemma eval_unsupported math_module real_pow (e : expr) :
  supported math_module e = false ->
  exists ex, result_of (_eval math_module real_pow e) = Raise ex.
Proof.
  induction e as [ n | s | id | v a IH | l o r IHl IHr | o x IH
                 | f args kws IHf IHargs | b IH | kind cs IH ]
    using expr_induction; intros H; try (simpl; eauto; fail).
  - discriminate.
  - destruct o; try (simpl; eauto; fail); cbn [supported] in H.
    all: erewrite eval_binop_allowed by reflexivity.
    all: destruct (result_of (_eval math_module real_pow l)) eqn:El;
      [|eauto].
    all: destruct (result_of (_eval math_module real_pow r)) eqn:Er;
      [|eauto].
    all: apply andb_false_iff in H as [H | H];
      [destruct (IHl H) | destruct (IHr H)]; discriminate.
  - destruct o; try (simpl; eauto; fail); cbn [supported] in H.
    all: erewrite eval_unaryop_allowed by reflexivity.
    all: destruct (result_of (_eval math_module real_pow x)) eqn:Ex;
      [|eauto].
    all: destruct (IH H); discriminate.
  - destruct f; try (simpl; eauto; fail).
    cbn [supported] in H. cbn [_eval func_id]. rewrite bind_ret.
    unfold dict_mem in H.
    destruct (dict_get String.eqb id (ALLOWED_NAMES math_module))
      as [obj|] eqn:E; [|simpl; eauto].
    simpl in H. rewrite result_bind.
    destruct (eval_args_returns math_module real_pow args) as [ex Hex];
      [exact IHargs | exact H |].
    rewrite Hex. eauto.
Qed.

(** X2: the evaluator returns a value only for a tree that it has a
    case for at every node it comes to: numeric literals, the six
    binary and two unary operators of the operator table, and calls by
    plain name of keys of the function table.  A bare name (a constant
    such as [pi]), a string, an attribute access, floor division or a
    bitwise operator in an operand or a positional argument makes the
    whole evaluation fail. *)
Theorem X2_value_only_for_supported_trees :
  forall (ast_parse : str -> outcome expr) math_module real_pow text tree v,
    ast_parse text = Return tree ->
    result_of (safe_eval ast_parse math_module real_pow text) = Return v ->
    supported math_module tree = true.
Proof.
  intros ast_parse math_module real_pow text tree v Hparse Hv.
  unfold safe_eval, lift in Hv. rewrite Hparse, result_bind in Hv.
  cbn [result_of snd] in Hv.
  destruct (supported math_module tree) eqn:Hs; [reflexivity|].
  destruct (eval_unsupported math_module real_pow tree Hs) as [ex Hex].
  rewrite Hex in Hv. discriminate.
Qed.

Lemma X2_value_only_for_supported_trees_witness :
  py_parse $"max(2, 3) * -4"
  = Return (BinOp (Call (Name "max") [Num (VInt 2); Num (VInt 3)] []) Mult
                  (UnaryOp USub (Num (VInt 4))))
  /\ result_of (safe_eval py_parse math_exact exact_pow $"max(2, 3) * -4")
     = Return (VInt (-12))
  /\ supported math_exact
       (BinOp (Call (Name "max") [Num (VInt 2); Num (VInt 3)] []) Mult
              (UnaryOp USub (Num (VInt 4))))
     = true.
Proof.
  assert (Hparse : py_parse $"max(2, 3) * -4"
                   = Return (BinOp (Call (Name "max")
                                         [Num (VInt 2); Num (VInt 3)] [])
                                   Mult (UnaryOp USub (Num (VInt 4)))))
    by (vm_compute; reflexivity).
  assert (Hv : result_of (safe_eval py_parse math_exact exact_pow
                                    $"max(2, 3) * -4")
               = Return (VInt (-12)))
    by (vm_compute; reflexivity).
  split; [exact Hparse|]. split; [exact Hv|].
  exact (X2_value_only_for_supported_trees py_parse math_exact exact_pow
           $"max(2, 3) * -4" _ _ Hparse Hv).
Defined.

(** ** The function table *)

Lemma dict_get_set (V : Type) (k k' : string) (v : V) (d : dict string V) :
  dict_get String.eqb k (dict_set String.eqb k' v d)
  = if String.eqb k k' then Some v else dict_get String.eqb k d.
Proof.
  induction d as [|[k0 v0] d IH]; simpl.
  - reflexivity.
  - destruct (String.eqb k' k0) eqn:E0; simpl.
    + apply String.eqb_eq in E0. subst k0.
      destruct (String.eqb k k'); reflexivity.
    + rewrite IH. destruct (String.eqb k k0) eqn:E1; [|reflexivity].
      apply String.eqb_eq in E1. subst k0.
      rewrite String.eqb_sym, E0. reflexivity.
Qed.

Lemma dict_mem_set (V : Type) (k k' : string) (v : V) (d : dict string V) :
  dict_mem String.eqb k (dict_set String.eqb k' v d)
  = String.eqb k k' || dict_mem String.eqb k d.
Proof.
  unfold dict_mem. rewrite dict_get_set.
  destruct (String.eqb k k'); reflexivity.
Qed.

Lemma dict_mem_public (math_module acc : dict string pyobject) (k : string) :
  dict_mem String.eqb k
    (fold_left
       (fun acc kv =>
          if negb (starts_with_underscore (fst kv))
          then dict_set String.eqb (fst kv) (snd kv) acc
          else acc)
       math_module acc)
  = (negb (starts_with_underscore k) && dict_mem String.eqb k math_module)
    || dict_mem String.eqb k acc.
Proof.
  revert acc. induction math_module as [|[k0 v0] m IH]; intros acc.
  - destruct (starts_with_underscore k); reflexivity.
  - cbn [fold_left fst snd]. rewrite IH.
    unfold dict_mem at 3. cbn [dict_get].
    destruct (String.eqb k k0) eqn:E.
    + apply String.eqb_eq in E. subst k0.
      destruct (starts_with_underscore k); cbn [negb andb orb].
      * reflexivity.
      * rewrite dict_mem_set, String.eqb_refl. cbn [orb].
        now rewrite orb_true_r.
    + destruct (starts_with_underscore k0); cbn [negb].
      * reflexivity.
      * rewrite dict_mem_set, E. reflexivity.
Qed.

(** X3: an identifier is a key of the function table exactly when it
    is [abs], [round], [min] or [max], or a name of the [math] module
    that does not start with an underscore; the four built-in names
    are bound to the built-in functions even when the [math] module
    has an entry of the same name. *)
Theorem X3_function_table_keys :
  forall math_module (k : string),
    dict_mem String.eqb k (ALLOWED_NAMES math_module)
    = existsb (String.eqb k) builtin_names
      || (negb (starts_with_underscore k)
          && dict_mem String.eqb k math_module)
    /\ dict_get String.eqb "abs" (ALLOWED_NAMES math_module)
       = Some (OFunc py_abs)
    /\ dict_get String.eqb "round" (ALLOWED_NAMES math_module)
       = Some (OFunc py_round)
    /\ dict_get String.eqb "min" (ALLOWED_NAMES math_module)
       = Some (OFunc py_min)
    /\ dict_get String.eqb "max" (ALLOWED_NAMES math_module)
       = Some (OFunc py_max).
Proof.
  intros math_module k. unfold ALLOWED_NAMES, dict_update.
  cbn [fold_left fst snd]. split.
  - rewrite !dict_mem_set, dict_mem_public.
    unfold dict_mem at 2. cbn [dict_get existsb builtin_names].
    rewrite orb_false_r.
    destruct (String.eqb k "abs"), (String.eqb k "round"),
      (String.eqb k "min"), (String.eqb k "max"); cbn [orb];
      rewrite ?orb_true_r; reflexivity.
  - rewrite !dict_get_set. repeat split.
Qed.

(** ** Unit conversion *)

Lemma str_eqb_eq (a b : str) : str_eqb a b = true <-> a = b.
Proof.
  unfold str_eqb. destruct (list_eq_dec ascii_dec a b); split; auto.
  discriminate.
Qed.

Lemma unit_key_eqb_eq (a b : str * str) : unit_key_eqb a b = true <-> a = b.
Proof.
  destruct a as [a1 a2], b as [b1 b2]. unfold unit_key_eqb. simpl.
  rewrite andb_true_iff, !str_eqb_eq. split.
  - intros [-> ->]. reflexivity.
  - intros H. injection H as -> ->. auto.
Qed.

Lemma unit_lookup (k : str * str) :
  match dict_get unit_key_eqb k UNIT_MAP with
  | Some f => In k registered_pairs /\ forall x, exists v, f x = Return v
  | None => ~ In k registered_pairs
  end.
Proof.
  unfold UNIT_MAP, registered_pairs. cbn [dict_get].
  destruct (unit_key_eqb k ($"m", $"cm")) eqn:E1.
  { apply unit_key_eqb_eq in E1. subst k. split; [now left|].
    intros [z | q]; eexists; reflexivity. }
  destruct (unit_key_eqb k ($"cm", $"m")) eqn:E2.
  { apply unit_key_eqb_eq in E2. subst k. split; [now right; left|].
    intros [z | q]; eexists; reflexivity. }
  destruct (unit_key_eqb k ($"kg", $"lb")) eqn:E3.
  { apply unit_key_eqb_eq in E3. subst k. split; [now right; right; left|].
    intros [z | q]; eexists; reflexivity. }
  destruct (unit_key_eqb k ($"lb", $"kg")) eqn:E4.
  { apply unit_key_eqb_eq in E4. subst k.
    split; [now right; right; right; left|].
    intros [z | q]; eexists; reflexivity. }
  intros [H | [H | [H | [H | []]]]]; subst k.
  - rewrite (proj2 (unit_key_eqb_eq _ _) eq_refl) in E1. discriminate.
  - rewrite (proj2 (unit_key_eqb_eq _ _) eq_refl) in E2. discriminate.
  - rewrite (proj2 (unit_key_eqb_eq _ _) eq_refl) in E3. discriminate.
  - rewrite (proj2 (unit_key_eqb_eq _ _) eq_refl) in E4. discriminate.
Qed.

(** What [convert_units] answers: a number when the lowercased pair of
    units is registered, the [ValueError] naming the units as they
    were given otherwise. *)
Lemma convert_units_cases (x : value) (f t : str) :
  (In (lower f, lower t) registered_pairs
   /\ exists v, convert_units x f t = Return v
                /\ convert_units x (lower f) (lower t) = Return v)
  \/ (~ In (lower f, lower t) registered_pairs
      /\ convert_units x f t
         = Raise (ValueError ("No converter registered for "
                              ++ string_of_list_ascii f ++ " -> "
                              ++ string_of_list_ascii t))).
Proof.
  unfold convert_units. rewrite !lower_idem.
  pose proof (unit_lookup (lower f, lower t)) as H.
  destruct (dict_get unit_key_eqb (lower f, lower t) UNIT_MAP) as [g|].
  - left. destruct H as [Hin Hv]. split; [exact Hin|].
    destruct (Hv x) as [v Hx]. exists v. auto.
  - right. auto.
Qed.



(** ** Classification and dispatch *)

Lemma lower_char_space (c : ascii) : is_space (lower_char c) = is_space c.
Proof. by_cases_on_char c. Qed.

Lemma lstrip_lower (s : str) : lstrip (lower s) = lower (lstrip s).
Proof.
  induction s as [|c s IH]; simpl; [reflexivity|].
  rewrite lower_char_space. destruct (is_space c); [exact IH | reflexivity].
Qed.

Lemma rstrip_lower (s : str) : rstrip (lower s) = lower (rstrip s).
Proof.
  unfold rstrip.
  replace (rev (lower s)) with (lower (rev s))
    by (unfold lower; apply map_rev).
  rewrite lstrip_lower. unfold lower. symmetry. apply map_rev.
Qed.

Lemma strip_lower (s : str) : strip (lower s) = lower (strip s).
Proof. unfold strip. now rewrite lstrip_lower, rstrip_lower. Qed.

Lemma lstrip_idem (s : str) : lstrip (lstrip s) = lstrip s.
Proof.
  induction s as [|c s IH]; simpl; [reflexivity|].
  destruct (is_space c) eqn:E; [exact IH|]. simpl. now rewrite E.
Qed.

Lemma lstrip_suffix (s : str) : exists w, s = w ++ lstrip s.
Proof.
  induction s as [|c s [w IH]]; simpl.
  - now exists [].
  - destruct (is_space c).
    + exists (c :: w). simpl. now rewrite <- IH.
    + now exists [].
Qed.

Lemma lstrip_fixed_head (c : ascii) (s : str) :
  lstrip (c :: s) = c :: s -> is_space c = false.
Proof.
  simpl. destruct (is_space c); [|reflexivity].
  intros H. destruct (lstrip_suffix s) as [w Hw].
  apply (f_equal (@length ascii)) in H. apply (f_equal (@length ascii)) in Hw.
  rewrite length_app in Hw. simpl in H. lia.
Qed.

Lemma rstrip_prefix (s : str) : exists w, s = rstrip s ++ w.
Proof.
  unfold rstrip. destruct (lstrip_suffix (rev s)) as [w Hw].
  exists (rev w). rewrite <- rev_app_distr, <- Hw. now rewrite rev_involutive.
Qed.

Lemma strip_idem (s : str) : strip (strip s) = strip s.
Proof.
  unfold strip.
  assert (Hl : lstrip (rstrip (lstrip s)) = rstrip (lstrip s)).
  { pose proof (lstrip_idem s) as Hfix.
    destruct (rstrip_prefix (lstrip s)) as [w Hw].
    destruct (rstrip (lstrip s)) as [|c r] eqn:E; [reflexivity|].
    rewrite Hw in Hfix. simpl app in Hfix.
    apply lstrip_fixed_head in Hfix. simpl. now rewrite Hfix. }
  rewrite Hl. unfold rstrip. rewrite rev_involutive, lstrip_idem.
  reflexivity.
Qed.

(** X6: the classification does not depend on blanks around the text
    nor on its case: stripping the text first, as the command loop
    does, or lowercasing it changes nothing. *)
Theorem X6_classification_ignores_blanks_and_case :
  forall text,
    classify_intent (strip text) = classify_intent text
    /\ classify_intent (lower (strip text)) = classify_intent text.
Proof.
  intros text. unfold classify_intent.
  rewrite lower_idem, !strip_lower, !strip_idem. auto.
Qed.

Lemma classify_intent_cases (text : str) :
  classify_intent text = "convert" \/ classify_intent text = "stats"
  \/ classify_intent text = "generate_csv"
  \/ classify_intent text = "calculate" \/ classify_intent text = "unknown".
Proof.
  unfold classify_intent.
  repeat match goal with
         | |- context [if ?b then _ else _] => destruct b
         end; auto 6.
Qed.

Lemma agent_process_dispatch ast_parse math_module real_pow (text : str) :
  let agent := agent_process ast_parse math_module real_pow text in
  (classify_intent text = "convert" -> agent = handle_convert text)
  /\ (classify_intent text = "stats" -> agent = handle_stats text)
  /\ (classify_intent text = "generate_csv" ->
      agent = handle_generate_csv text)
  /\ (classify_intent text = "calculate" ->
      agent = handle_calculate ast_parse math_module real_pow text)
  /\ (classify_intent text = "unknown" -> agent = handle_unknown text).
Proof.
  unfold agent_process. repeat apply conj; intros ->; reflexivity.
Qed.

Ltac record_shape :=
  unfold well_formed; split; [reflexivity|];
  first [ left; split; reflexivity
        | right; split; [reflexivity | eexists; reflexivity] ].

Lemma handle_calculate_shape ast_parse math_module real_pow text r :
  handle_calculate ast_parse math_module real_pow text = Return r ->
  well_formed "calculate" r.
Proof.
  unfold handle_calculate.
  destruct (result_of (safe_eval _ _ _ _)); [|discriminate].
  intros [= <-]. record_shape.
Qed.

Lemma handle_convert_shape text r :
  handle_convert text = Return r -> well_formed "convert" r.
Proof.
  unfold handle_convert. destruct (re_search conversion_re text) as [m|].
  - destruct (py_float _); [|discriminate]. cbn [obind].
    destruct (convert_units _ _ _); [|discriminate].
    intros [= <-]. record_shape.
  - intros [= <-]. record_shape.
Qed.

Lemma handle_stats_shape text r :
  handle_stats text = Return r -> well_formed "stats" r.
Proof.
  unfold handle_stats.
  destruct (extract_numbers_from_text text) as [nums|]; [|discriminate].
  cbn [obind]. destruct nums as [|q nums].
  - intros [= <-]. record_shape.
  - destruct (contains $"mean" text || contains $"average" text).
    + destruct (mean (q :: nums)); [|discriminate].
      intros [= <-]. record_shape.
    + destruct (contains $"median" text).
      * destruct (median (q :: nums)); [|discriminate].
        intros [= <-]. record_shape.
      * intros [= <-]. record_shape.
Qed.

Lemma handle_generate_csv_shape text r :
  handle_generate_csv text = Return r -> well_formed "generate_csv" r.
Proof.
  unfold handle_generate_csv.
  destruct (extract_numbers_from_text text) as [nums|]; [|discriminate].
  cbn [obind]. destruct nums as [|q nums]; intros [= <-]; record_shape.
Qed.

Lemma agent_record_shape ast_parse math_module real_pow text r :
  agent_process ast_parse math_module real_pow text = Return r ->
  well_formed (classify_intent text) r.
Proof.
  intros H.
  destruct (agent_process_dispatch ast_parse math_module real_pow text)
    as (Hconv & Hstats & Hcsv & Hcalc & Hunk).
  destruct (classify_intent_cases text) as [E | [E | [E | [E | E]]]];
    rewrite E.
  - rewrite (Hconv E) in H. now apply handle_convert_shape in H.
  - rewrite (Hstats E) in H. now apply handle_stats_shape in H.
  - rewrite (Hcsv E) in H. now apply handle_generate_csv_shape in H.
  - rewrite (Hcalc E) in H. now apply handle_calculate_shape in H.
  - rewrite (Hunk E) in H. unfold handle_unknown in H.
    injection H as <-. record_shape.
Qed.

(** X7: the intent found by the classifier always has a handler, so
    the dispatcher never falls back on its default; and every record
    that [agent_process] returns carries that intent under [intent],
    and either status [ok] and no [error] entry, or status [error] and
    an [error] message.  The command loop can read [intent] and
    [status] from whatever is returned. *)
Theorem X7_returned_records_are_well_formed :
  forall (ast_parse : str -> outcome expr) math_module real_pow text r,
    agent_process ast_parse math_module real_pow text = Return r ->
    In (classify_intent text) intents
    /\ dict_mem String.eqb (classify_intent text)
                (INTENT_HANDLERS ast_parse math_module real_pow) = true
    /\ well_formed (classify_intent text) r.
Proof.
  intros ast_parse math_module real_pow text r H.
  split; [|split].
  - unfold intents.
    destruct (classify_intent_cases text) as [E | [E | [E | [E | E]]]];
      rewrite E; simpl; auto 6.
  - destruct (classify_intent_cases text) as [E | [E | [E | [E | E]]]];
      rewrite E; reflexivity.
  - now apply agent_record_shape in H.
Qed.

Lemma X7_returned_records_are_well_formed_witness :
  agent_process py_parse math_exact exact_pow $"10 kg to lb"
  = Return [ ("status", FStr "ok"); ("intent", FStr "convert");
             ("result", FNum (VFloat (1000000000 # 45359237)));
             ("from", FStr "kg"); ("to", FStr "lb") ]
  /\ well_formed (classify_intent $"10 kg to lb")
       [ ("status", FStr "ok"); ("intent", FStr "convert");
         ("result", FNum (VFloat (1000000000 # 45359237)));
         ("from", FStr "kg"); ("to", FStr "lb") ].
Proof.
  assert (H : agent_process py_parse math_exact exact_pow $"10 kg to lb"
              = Return [ ("status", FStr "ok"); ("intent", FStr "convert");
                         ("result", FNum (VFloat (1000000000 # 45359237)));
                         ("from", FStr "kg"); ("to", FStr "lb") ])
    by (vm_compute; reflexivity).
  split; [exact H|].
  exact (proj2 (proj2 (X7_returned_records_are_well_formed
                         py_parse math_exact exact_pow $"10 kg to lb" _ H))).
Defined.

(** X8: only the calculate and the convert handler can raise: for a
    text classified as stats, generate_csv or unknown, [agent_process]
    returns a record, for every text. *)
Theorem X8_other_intents_never_raise :
  forall (ast_parse : str -> outcome expr) math_module real_pow text,
    classify_intent text <> "calculate" ->
    classify_intent text <> "convert" ->
    exists r, agent_process ast_parse math_module real_pow text = Return r.
Proof.
  intros ast_parse math_module real_pow text Hcalc Hconv.
  destruct (agent_process_dispatch ast_parse math_module real_pow text)
    as (_ & Hstats & Hcsv & _ & Hunk).
  destruct (classify_intent_cases text) as [E | [E | [E | [E | E]]]];
    try contradiction.
  - rewrite (Hstats E).
    destruct (handle_stats_cases text) as (nums & med & _ & _ & _ & H).
    rewrite H.
    repeat match goal with
           | |- context [if ?b then _ else _] => destruct b
           end; eauto.
  - rewrite (Hcsv E). unfold handle_generate_csv.
    destruct (extract_numbers_total text) as (nums & Hn & _).
    rewrite Hn. cbn [obind]. destruct nums; eauto.
  - rewrite (Hunk E). unfold handle_unknown. eauto.
Qed.

Lemma X8_other_intents_never_raise_witness :
  classify_intent $"median of nothing" = "stats"
  /\ exists r,
      agent_process py_parse math_exact exact_pow $"median of nothing"
      = Return r.
Proof.
  assert (H : classify_intent $"median of nothing" = "stats")
    by (vm_compute; reflexivity).
  split; [exact H|].
  apply X8_other_intents_never_raise; rewrite H; discriminate.
Defined.

(** ** The convert handler *)

Section MatcherGroups.
Variable A : Type.
Implicit Types (k : cont A) (p q : pos) (caps : captures).

(** Whatever the matcher finds is a match of the pattern, with the
    groups that the continuation is given. *)
Lemma rmatch_sound_groups (r : regex) :
  forall p caps k a,
    rmatch r p caps k = Some a ->
    exists q caps', denc r p caps q caps' /\ k q caps' = Some a.
Proof.
  induction r as [ | c | f | r1 IH1 r2 IH2 | r1 IH1 r2 IH2 | r IH | r IH
                 | i r IH | | ];
    intros p caps k a H.
  - exists p, caps. split; [constructor | exact H].
  - destruct p as [b aft]. cbn [rmatch after before] in H.
    destruct aft as [|x rest]; [discriminate|].
    destruct (ascii_eqb x c) eqn:E; [|discriminate].
    apply ascii_eqb_eq in E. subst x.
    exists (Pos (c :: b) rest), caps. split; [constructor | exact H].
  - destruct p as [b aft]. cbn [rmatch after before] in H.
    destruct aft as [|x rest]; [discriminate|].
    destruct (f x) eqn:E; [|discriminate].
    exists (Pos (x :: b) rest), caps. split; [now constructor | exact H].
  - cbn [rmatch] in H. apply IH1 in H as (q & caps1 & D1 & H).
    apply IH2 in H as (s & caps2 & D2 & H).
    exists s, caps2. split; [econstructor; eassumption | exact H].
  - cbn [rmatch] in H. destruct (rmatch r1 p caps k) eqn:E; simpl in H.
    + injection H as <-. apply IH1 in E as (q & caps1 & D & E).
      exists q, caps1. split; [now apply denc_AltL | exact E].
    + apply IH2 in H as (q & caps1 & D & H).
      exists q, caps1. split; [now apply denc_AltR | exact H].
  - cbn [rmatch] in H. destruct (rmatch r p caps k) eqn:E; simpl in H.
    + injection H as <-. apply IH in E as (q & caps1 & D & E).
      exists q, caps1. split; [now apply denc_OptSome | exact E].
    + exists p, caps. split; [apply denc_OptNone | exact H].
  - cbn [rmatch] in H. revert H. generalize (length (after p)).
    intros fuel. revert p caps.
    induction fuel as [|fuel IHf]; intros p caps H.
    + exists p, caps. split; [apply denc_StarNil | exact H].
    + match type of H with
      | orelse ?x _ = _ => destruct x eqn:E
      end; simpl in H.
      * injection H as <-. apply IH in E as (q & caps1 & D & E).
        destruct (length (after q) <? length (after p))%nat; [|discriminate].
        apply IHf in E as (s & caps2 & D2 & E).
        exists s, caps2. split; [eapply denc_StarCons; eassumption | exact E].
      * exists p, caps. split; [apply denc_StarNil | exact H].
  - cbn [rmatch] in H. apply IH in H as (q & caps1 & D & H).
    eexists q, _. split; [constructor; exact D | exact H].
  - cbn [rmatch] in H. destruct (at_boundary p) eqn:E; [|discriminate].
    exists p, caps. split; [now constructor | exact H].
  - destruct p as [b aft]. cbn [rmatch before] in H.
    destruct b; [|discriminate].
    exists (Pos [] aft), caps. split; [constructor | exact H].
Qed.
End MatcherGroups.

Lemma denc_den (r : regex) p c q c' : denc r p c q c' -> den r p q.
Proof.
  induction 1;
    first [ now constructor
          | eapply den_Cat; eassumption
          | apply den_AltL; assumption
          | apply den_AltR; assumption
          | apply den_OptSome; assumption
          | apply den_OptNone
          | eapply den_StarCons; eassumption ].
Qed.

Lemma denc_groupfree (r : regex) p c q c' :
  denc r p c q c' -> groupfree r = true -> c' = c.
Proof.
  induction 1; simpl; intros G; try reflexivity; try discriminate;
    try (apply andb_true_iff in G as [G1 G2]); auto.
  - rewrite IHdenc2, IHdenc1; auto.
  - rewrite IHdenc2, IHdenc1; auto.
Qed.

Lemma match_at_groups (r : regex) (p : pos) (m : rmatch_obj) :
  match_at r p = Some m -> denc r p [] (m_end m) (m_groups m).
Proof.
  unfold match_at. intros H.
  apply rmatch_sound_groups in H as (q & caps & D & H).
  injection H as <-. exact D.
Qed.

(** The groups of a match of the conversion phrase: the third, the
    second and the first, which has the shape of a number. *)
Lemma conversion_groups (p q : pos) (caps : captures) :
  denc conversion_re p [] q caps ->
  exists w1 w2 w3,
    caps = [(3%nat, w3); (2%nat, w2); (1%nat, w1)]
    /\ has_digit (after p) = true
    /\ exists x, py_float w1 = Return x.
Proof.
  unfold conversion_re. intros H.
  inversion H as [ | | | r1 r2 p0 c0 q1 c1 s0 c2 D1 D2 | | | | | | | | | ];
    subst; clear H.
  inversion D1 as [ | | | | | | | | | | i r p0 c0 q0 c3 Dn | | ];
    subst; clear D1.
  assert (c3 = []) by (eapply denc_groupfree; [exact Dn | reflexivity]).
  subst c3. apply denc_den in Dn.
  apply den_number in Dn
    as (sign & d & ds & dot & ds' & E & S1 & S2 & S3 & S4 & S5).
  inversion D2 as [ | | | r1 r2 p0 c0 q2 c4 s0 c5 D3 D4 | | | | | | | | | ];
    subst; clear D2.
  assert (c4 = [(1%nat, firstn (length (after p) - length (after q1))
                               (after p))])
    by (eapply denc_groupfree; [exact D3 | reflexivity]).
  subst c4.
  inversion D4 as [ | | | r1 r2 p0 c0 q3 c6 s0 c7 D5 D6 | | | | | | | | | ];
    subst; clear D4.
  inversion D5 as [ | | | | | | | | | | i r p0 c0 q0 c8 Dw | | ];
    subst; clear D5.
  assert (c8 = [(1%nat, firstn (length (after p) - length (after q1))
                               (after p))])
    by (eapply denc_groupfree; [exact Dw | reflexivity]).
  subst c8.
  inversion D6 as [ | | | r1 r2 p0 c0 q4 c9 s0 c10 D7 D8 | | | | | | | | | ];
    subst; clear D6.
  apply denc_groupfree in D7; [|reflexivity]. subst c9.
  inversion D8 as [ | | | r1 r2 p0 c0 q5 c11 s0 c12 D9 D10 | | | | | | | | | ];
    subst; clear D8.
  apply denc_groupfree in D9; [|reflexivity]. subst c11.
  inversion D10 as [ | | | r1 r2 p0 c0 q6 c13 s0 c14 D11 D12 | | | | | | | | | ];
    subst; clear D10.
  apply denc_groupfree in D11; [|reflexivity]. subst c13.
  inversion D12 as [ | | | | | | | | | | i r p0 c0 q0 c15 Dw3 | | ];
    subst; clear D12.
  apply denc_groupfree in Dw3; [|reflexivity]. subst c15.
  eexists _, _, _. split; [reflexivity|]. split.
  - rewrite E. unfold has_digit. rewrite existsb_app. simpl.
    rewrite S2. now rewrite orb_true_r.
  - rewrite E.
    replace (sign ++ (d :: ds) ++ dot ++ ds' ++ after q1)
      with ((sign ++ (d :: ds) ++ dot ++ ds') ++ after q1)
      by (now rewrite <- !app_assoc).
    rewrite firstn_read. now apply py_float_number.
Qed.

(** What the convert handler answers, case by case. *)
Lemma handle_convert_cases (text : str) :
  (has_digit text = false -> handle_convert text = Return invalid_conversion)
  /\ (handle_convert text = Return invalid_conversion
      \/ exists (x : Q) (f t : str),
          (~ In (lower f, lower t) registered_pairs
           /\ handle_convert text
              = Raise (ValueError ("No converter registered for "
                                   ++ string_of_list_ascii f ++ " -> "
                                   ++ string_of_list_ascii t)))
          \/ (In (lower f, lower t) registered_pairs
              /\ exists v,
                  convert_units (VFloat x) f t = Return v
                  /\ handle_convert text
                     = Return [ ("status", FStr "ok");
                                ("intent", FStr "convert");
                                ("result", FNum v);
                                ("from", FStr (string_of_list_ascii f));
                                ("to", FStr (string_of_list_ascii t)) ])).
Proof.
  unfold handle_convert, re_search.
  destruct (search_from conversion_re [] text) as [m|] eqn:E.
  - apply search_from_some in E as (pre & Hpre & Hm).
    apply match_at_groups in Hm.
    apply conversion_groups in Hm as (w1 & w2 & w3 & Hcaps & Hd & x & Hx).
    split.
    + intros Hno. rewrite Hpre in Hno. unfold has_digit in *.
      rewrite existsb_app, Hd, orb_true_r in Hno. discriminate.
    + right. exists x, w2, w3. unfold group_or_empty. rewrite Hcaps.
      cbn [group Nat.eqb]. rewrite Hx. cbn [obind].
      destruct (convert_units_cases (VFloat x) w2 w3)
        as [(Hin & v & Hv & _) | (Hout & Hv)]; rewrite Hv; cbn [obind].
      * right. split; [exact Hin|]. exists v. auto.
      * left. auto.
  - split; [reflexivity | left; reflexivity].
Qed.



(** ** The numbers of a text *)

Lemma span_parts (f : ascii -> bool) (s : str) :
  s = fst (span f s) ++ snd (span f s).
Proof.
  induction s as [|c s IH]; simpl; [reflexivity|].
  destruct (f c); [|reflexivity].
  destruct (span f s) as [a b]. simpl in *. now rewrite <- IH.
Qed.

Lemma advance_pos (w rest bef : str) :
  advance w (Pos bef (w ++ rest)) = Pos (rev w ++ bef) rest.
Proof.
  unfold advance. cbn [before after]. f_equal.
  rewrite skipn_app, Nat.sub_diag, skipn_all. reflexivity.
Qed.

Lemma advance_span (f : ascii -> bool) (bef s : str) :
  advance (fst (span f s)) (Pos bef s)
  = Pos (rev (fst (span f s)) ++ bef) (snd (span f s)).
Proof.
  rewrite (span_parts f s) at 2. apply advance_pos.
Qed.

(** An optional character before a pattern that cannot fail. *)
Lemma rmatch_opt_char {A} (c : ascii) (bef s : str) caps (k : cont A) :
  total k ->
  rmatch (Opt (Chr c)) (Pos bef s) caps k
  = k (Pos (rev (fst (take_char c s)) ++ bef) (snd (take_char c s))) caps.
Proof.
  intros Hk. rewrite rmatch_Opt. unfold take_char.
  destruct s as [|x r]; [reflexivity|].
  rewrite rmatch_Chr_cons. destruct (ascii_eqb x c); [|reflexivity].
  cbn [fst snd rev app]. destruct (k _ caps) eqn:E; [reflexivity|].
  exfalso. revert E. apply Hk.
Qed.

(** Digits, an optional point and digits, before a pattern that cannot
    fail. *)
Lemma rmatch_unsigned {A} (bef body : str) caps (k : cont A) :
  total k ->
  rmatch (Cat (Plus (Cls is_digit))
              (Cat (Opt (Chr "."%char)) (Star (Cls is_digit))))
         (Pos bef body) caps k
  = match fst (span is_digit body) with
    | [] => None
    | _ :: _ =>
      let ds := fst (span is_digit body) in
      let r1 := snd (span is_digit body) in
      let dot := fst (take_char "."%char r1) in
      let r2 := snd (take_char "."%char r1) in
      let ds' := fst (span is_digit r2) in
      k (Pos (rev ds' ++ rev dot ++ rev ds ++ bef) (snd (span is_digit r2)))
        caps
    end.
Proof.
  intros Hk. unfold Plus. rewrite !rmatch_Cat.
  destruct body as [|d body]; [reflexivity|].
  rewrite rmatch_Cls_cons. cbn [span].
  destruct (is_digit d) eqn:Hd; [|reflexivity].
  assert (Htail : total (fun p' caps' =>
                     rmatch (Cat (Opt (Chr "."%char)) (Star (Cls is_digit)))
                            p' caps' k)).
  { intros p' caps'. apply rmatch_nofail; [reflexivity | exact Hk]. }
  rewrite (rmatch_star_class _ is_digit _ _ _ Htail).
  cbn [after]. rewrite advance_span.
  destruct (span is_digit body) as [ds r1]. cbn [fst snd].
  rewrite rmatch_Cat.
  assert (Hstar : total (fun p' caps' =>
                     rmatch (Star (Cls is_digit)) p' caps' k)).
  { intros p' caps'. apply rmatch_nofail; [reflexivity | exact Hk]. }
  rewrite (rmatch_opt_char _ _ _ _ _ Hstar).
  rewrite (rmatch_star_class _ is_digit _ _ _ Hk).
  cbn [after]. rewrite advance_span. cbv zeta.
  cbn [rev]. rewrite <- !app_assoc. reflexivity.
Qed.

Lemma number_prefix_unsigned (body : str) :
  ascii_eqb (hd "0"%char body) "-"%char = false ->
  number_prefix body
  = match fst (span is_digit body) with
    | [] => None
    | _ :: _ =>
      let ds := fst (span is_digit body) in
      let r1 := snd (span is_digit body) in
      let dot := fst (take_char "."%char r1) in
      let r2 := snd (take_char "."%char r1) in
      Some (ds ++ dot ++ fst (span is_digit r2), snd (span is_digit r2))
    end.
Proof.
  intros Hhd. unfold number_prefix.
  assert (Htake : take_char "-"%char body = ([], body)).
  { unfold take_char. destruct body as [|x r]; [reflexivity|].
    simpl in Hhd. now rewrite Hhd. }
  rewrite Htake. destruct (span is_digit body) as [ds r1]. cbn [fst snd].
  destruct ds as [|d ds]; [reflexivity|].
  cbv zeta. destruct (take_char "."%char r1) as [dot r2]. cbn [fst snd].
  destruct (span is_digit r2) as [ds' r3]. reflexivity.
Qed.

Lemma span_minus (r : str) : fst (span is_digit ("-"%char :: r)) = [].
Proof. reflexivity. Qed.

(** At every position the pattern [number_re] matches what
    [number_prefix] reads. *)
Lemma match_at_number_prefix (bef s : str) :
  match_at number_re (Pos bef s)
  = match number_prefix s with
    | Some (w, rest) =>
      Some (MatchObj (Pos bef s) (Pos (rev w ++ bef) rest) [])
    | None => None
    end.
Proof.
  unfold match_at, number_re. rewrite rmatch_Cat, rmatch_Opt.
  destruct s as [|c r].
  - reflexivity.
  - rewrite rmatch_Chr_cons. destruct (ascii_eqb c "-"%char) eqn:Ec.
    + apply ascii_eqb_eq in Ec. subst c.
      rewrite rmatch_unsigned by apply total_final.
      rewrite rmatch_unsigned by apply total_final.
      rewrite span_minus. unfold number_prefix.
      change (take_char "-"%char ("-"%char :: r)) with (["-"%char], r).
      cbv beta iota.
      destruct (span is_digit r) as [ds r1]. cbn [fst snd].
      destruct ds as [|d ds].
      * reflexivity.
      * cbv zeta. destruct (take_char "."%char r1) as [dot r2].
        cbn [fst snd]. destruct (span is_digit r2) as [ds' r3].
        cbn [fst snd orelse]. do 3 f_equal.
        rewrite !rev_app_distr. cbn [rev app].
        rewrite <- !app_assoc. reflexivity.
    + cbn [orelse]. rewrite rmatch_unsigned by apply total_final.
      rewrite number_prefix_unsigned by exact Ec.
      destruct (span is_digit (c :: r)) as [ds r1]. cbn [fst snd].
      destruct ds as [|d ds]; [reflexivity|].
      cbv beta iota zeta. do 3 f_equal. rewrite !rev_app_distr.
      rewrite <- !app_assoc. reflexivity.
Qed.

Lemma search_from_number (s bef : str) :
  match search_from number_re bef s, next_number s with
  | Some m, Some (w, rest) => m_text m = w /\ after (m_end m) = rest
                              /\ (length rest < length (after (m_start m)))%nat
  | None, None => True
  | _, _ => False
  end.
Proof.
  revert bef. induction s as [|c s IH]; intros bef.
  - cbn [search_from next_number]. rewrite match_at_number_prefix.
    change (number_prefix []) with (@None (str * str)). exact I.
  - cbn [search_from next_number]. rewrite match_at_number_prefix.
    destruct (number_prefix (c :: s)) as [[w rest]|] eqn:E.
    + unfold m_text. cbn [m_start m_end after].
      assert (Hw : c :: s = w ++ rest /\ w <> []).
      { unfold number_prefix in E.
        destruct (take_char "-"%char (c :: s)) as [sign body] eqn:Et.
        pose proof (span_parts is_digit body) as Hb.
        destruct (span is_digit body) as [ds r1].
        destruct ds as [|d ds]; [discriminate|].
        destruct (take_char "."%char r1) as [dot r2] eqn:Ed.
        pose proof (span_parts is_digit r2) as Hr.
        destruct (span is_digit r2) as [ds' r3].
        injection E as <- <-. cbn [fst snd] in *.
        assert (Hs : c :: s = sign ++ body).
        { unfold take_char in Et. destruct (ascii_eqb c "-"%char);
            injection Et as <- <-; reflexivity. }
        assert (Hd : r1 = dot ++ r2).
        { unfold take_char in Ed. destruct r1 as [|x r1'].
          - injection Ed as <- <-. reflexivity.
          - destruct (ascii_eqb x "."%char); injection Ed as <- <-;
              reflexivity. }
        split.
        - rewrite Hs, Hb, Hd, Hr. rewrite <- app_assoc. f_equal.
          cbn [app]. f_equal. now rewrite <- !app_assoc.
        - destruct sign; discriminate. }
      destruct Hw as [Hw Hne]. rewrite Hw, firstn_read.
      split; [reflexivity|]. split; [reflexivity|].
      rewrite length_app. destruct w; [congruence | simpl; lia].
    + apply IH.
Qed.

Lemma findall_number_texts (fuel : nat) (s bef : str) :
  findall_from fuel number_re bef s = number_texts_fuel fuel s.
Proof.
  revert s bef. induction fuel as [|fuel IH]; intros s bef.
  - reflexivity.
  - cbn [findall_from number_texts_fuel].
    pose proof (search_from_number s bef) as H.
    destruct (search_from number_re bef s) as [m|],
             (next_number s) as [[w rest]|]; try contradiction.
    + destruct H as (Hw & Hrest & Hlt). rewrite Hrest.
      apply Nat.ltb_lt in Hlt. rewrite Hlt, Hw. f_equal. apply IH.
    + reflexivity.
Qed.

(** X10: the numbers that the handlers extract from a text are read
    from left to right as follows: a number starts at the first place
    where a digit stands, or a minus sign directly followed by a
    digit; it takes the longest run of digits, then a point if one
    follows, then the longest run of digits after it; the search goes
    on behind it.  So a hyphen between two numbers is the sign of the
    second, and a point after a number belongs to it. *)
Theorem X10_numbers_read_left_to_right :
  forall text,
    re_findall number_re text = number_texts text
    /\ extract_numbers_from_text text
       = map_outcome py_float (number_texts text).
Proof.
  intros text.
  assert (H : re_findall number_re text = number_texts text)
    by apply findall_number_texts.
  split; [exact H|]. unfold extract_numbers_from_text. now rewrite H.
Qed.
Lemma not_space_digits (l : str) :
  forallb is_digit l = true ->
  forallb (fun c => negb (is_space c)) l = true.
Proof.
  intros Hl. rewrite forallb_forall in *. intros x Hx.
  now rewrite (digit_not_space _ (Hl x Hx)).
Qed.

Lemma scan_number_digits (d : ascii) (ds : str) :
  forallb is_digit (d :: ds) = true ->
  scan_number (d :: ds)
  = Some (d :: ds, false,
          (inject_Z (digits_to_Z ((d :: ds) ++ []))
           * Qpower (inject_Z 10) (0 - Z.of_nat (length (@nil ascii))))%Q,
          []).
Proof.
  intros H. unfold scan_number.
  assert (E : span is_digit (d :: ds) = (d :: ds, [])).
  { rewrite <- (app_nil_r (d :: ds)) at 1. now apply span_all. }
  rewrite E. reflexivity.
Qed.

Lemma digits_value (ip : str) :
  (inject_Z (digits_to_Z (ip ++ []))
   * Qpower (inject_Z 10) (0 - Z.of_nat (length (@nil ascii)))
   == inject_Z (digits_to_Z ip))%Q.
Proof. rewrite app_nil_r. simpl. ring. Qed.

(** [float] on a run of digits and on a run of digits after a minus
    sign. *)
Lemma py_float_digits (d : ascii) (ds : str) :
  forallb is_digit (d :: ds) = true ->
  (exists q, py_float (d :: ds) = Return q
             /\ (q == inject_Z (digits_to_Z (d :: ds)))%Q)
  /\ (exists q, py_float ("-"%char :: d :: ds) = Return q
                /\ (q == - inject_Z (digits_to_Z (d :: ds)))%Q).
Proof.
  intros H. pose proof (scan_number_digits d ds H) as Hscan.
  pose proof (not_space_digits _ H) as Hns.
  assert (Hd : is_digit d = true)
    by (simpl in H; now apply andb_true_iff in H as [H _]).
  split.
  - unfold py_float. rewrite (strip_id _ Hns). cbv beta iota.
    rewrite (digit_not_minus _ Hd), (digit_not_plus _ Hd), Hscan.
    eexists. split; [reflexivity|].
    rewrite Qred_correct. apply digits_value.
  - unfold py_float. rewrite strip_id.
    + cbv beta iota. rewrite ascii_eqb_refl, Hscan.
      eexists. split; [reflexivity|].
      rewrite Qred_correct. now rewrite digits_value.
    + change (negb (is_space "-"%char)
              && forallb (fun c => negb (is_space c)) (d :: ds) = true).
      now rewrite Hns.
Qed.

Lemma next_number_here (s : str) (found : str * str) :
  number_prefix s = Some found -> next_number s = Some found.
Proof.
  intros H. destruct s as [|c s].
  - cbv in H. discriminate H.
  - cbn [next_number]. now rewrite H.
Qed.

Lemma number_texts_hyphen (d : ascii) (ds : str) (e : ascii) (es : str) :
  forallb is_digit (d :: ds) = true ->
  forallb is_digit (e :: es) = true ->
  number_texts ((d :: ds) ++ "-"%char :: e :: es)
  = [d :: ds; "-"%char :: e :: es].
Proof.
  intros Ha Hb.
  assert (Hd : is_digit d = true)
    by (simpl in Ha; now apply andb_true_iff in Ha as [Ha _]).
  assert (P1 : number_prefix ((d :: ds) ++ "-"%char :: e :: es)
               = Some (d :: ds, "-"%char :: e :: es)).
  { unfold number_prefix.
    assert (T : take_char "-"%char ((d :: ds) ++ "-"%char :: e :: es)
                = ([], (d :: ds) ++ "-"%char :: e :: es)).
    { cbn [app take_char]. now rewrite (digit_not_minus _ Hd). }
    rewrite T.
    rewrite (span_all is_digit (d :: ds) ("-"%char :: e :: es) Ha eq_refl).
    cbv beta iota. cbn [take_char].
    change (ascii_eqb "-"%char "."%char) with false. cbv beta iota.
    change (span is_digit ("-"%char :: e :: es))
      with (@nil ascii, "-"%char :: e :: es).
    cbv beta iota. cbn [app]. now rewrite !app_nil_r. }
  assert (P2 : number_prefix ("-"%char :: e :: es)
               = Some ("-"%char :: e :: es, [])).
  { unfold number_prefix.
    change (take_char "-"%char ("-"%char :: e :: es))
      with (["-"%char], e :: es).
    cbv beta iota.
    assert (E : span is_digit (e :: es) = (e :: es, [])).
    { rewrite <- (app_nil_r (e :: es)) at 1. now apply span_all. }
    rewrite E. cbv beta iota. cbn [take_char span app].
    now rewrite !app_nil_r. }
  unfold number_texts. rewrite length_app. cbn [length].
  rewrite !Nat.add_succ_r. cbn [number_texts_fuel].
  rewrite (next_number_here _ _ P1), (next_number_here _ _ P2).
  reflexivity.
Qed.

(** X11: a hyphen directly before digits is read as a minus sign, also
    between two numbers: from a text made of digits, a hyphen and
    digits, such as [10-20], the handlers extract the first number and
    the negated second. *)
Theorem X11_hyphen_is_a_sign :
  forall (a b : str),
    a <> [] -> b <> [] ->
    forallb is_digit a = true -> forallb is_digit b = true ->
    exists q1 q2,
      extract_numbers_from_text (a ++ "-"%char :: b) = Return [q1; q2]
      /\ (q1 == inject_Z (digits_to_Z a))%Q
      /\ (q2 == - inject_Z (digits_to_Z b))%Q.
Proof.
  intros a b Ha Hb Da Db.
  destruct a as [|d ds]; [congruence|]. destruct b as [|e es]; [congruence|].
  destruct (py_float_digits d ds Da) as [(q1 & F1 & V1) _].
  destruct (py_float_digits e es Db) as [_ (q2 & F2 & V2)].
  exists q1, q2. split; [|split; assumption].
  unfold extract_numbers_from_text, re_findall.
  rewrite findall_number_texts.
  change (number_texts_fuel (S (length ((d :: ds) ++ "-"%char :: e :: es)))
                            ((d :: ds) ++ "-"%char :: e :: es))
    with (number_texts ((d :: ds) ++ "-"%char :: e :: es)).
  rewrite (number_texts_hyphen d ds e es Da Db).
  cbn [map_outcome]. rewrite F1, F2. reflexivity.
Qed.

Lemma X11_hyphen_is_a_sign_witness :
  exists q1 q2,
    extract_numbers_from_text $"10-20" = Return [q1; q2]
    /\ (q1 == inject_Z 10)%Q /\ (q2 == - inject_Z 20)%Q.
Proof.
  apply (X11_hyphen_is_a_sign $"10" $"20");
    solve [discriminate | reflexivity].
Defined.

(** ** The command loop *)

Section CommandLoopFacts.
Variable ast_parse : str -> outcome expr.
Variable math_module : dict string pyobject.
Variable real_pow : Q -> Q -> outcome value.

#[local] Abbreviation agent := (agent_process ast_parse math_module real_pow).
#[local] Abbreviation loop := (command_loop ast_parse math_module real_pow).

Lemma command_loop_quit (before after : list str) (q : str) :
  is_quit (strip q) = true ->
  loop (before ++ q :: after) = loop (before ++ [q]).
Proof.
  intros Hq. induction before as [|l before IH].
  - cbn [app command_loop]. now rewrite Hq.
  - cbn [app command_loop]. destruct (is_quit (strip l)); [reflexivity|].
    destruct (agent (strip l)) as [resp|]; [|reflexivity].
    destruct (show_response resp); [|reflexivity].
    now rewrite IH.
Qed.

Lemma command_loop_ends (before : list str) (q : str) :
  is_quit (strip q) = true ->
  snd (loop (before ++ [q])) <> Faulted EOFError.
Proof.
  intros Hq. induction before as [|l before IH].
  - cbn [app command_loop]. rewrite Hq. discriminate.
  - cbn [app command_loop]. destruct (is_quit (strip l)); [discriminate|].
    destruct (agent (strip l)) as [resp|]; [|discriminate].
    destruct (show_response resp); [|discriminate].
    destruct (loop (before ++ [q])). exact IH.
Qed.

(** The loop can print every record that the agent returns. *)
Lemma show_response_total (text : str) (resp : record) :
  agent text = Return resp -> exists out, show_response resp = Return out.
Proof.
  intros H.
  destruct (agent_process_dispatch ast_parse math_module real_pow text)
    as (Hconv & Hstats & Hcsv & Hcalc & Hunk).
  destruct (classify_intent_cases text) as [E | [E | [E | [E | E]]]].
  - rewrite (Hconv E) in H. unfold handle_convert in H.
    destruct (re_search conversion_re text).
    + destruct (py_float _); [|discriminate]. cbn [obind] in H.
      destruct (convert_units _ _ _); [|discriminate].
      injection H as <-. eexists. reflexivity.
    + injection H as <-. eexists. reflexivity.
  - rewrite (Hstats E) in H. unfold handle_stats in H.
    destruct (extract_numbers_from_text text) as [nums|]; [|discriminate].
    cbn [obind] in H. destruct nums as [|q nums].
    + injection H as <-. eexists. reflexivity.
    + destruct (contains $"mean" text || contains $"average" text).
      * destruct (mean (q :: nums)); [|discriminate].
        injection H as <-. eexists. reflexivity.
      * destruct (contains $"median" text).
        -- destruct (median (q :: nums)); [|discriminate].
           injection H as <-. eexists. reflexivity.
        -- injection H as <-. eexists. reflexivity.
  - rewrite (Hcsv E) in H. unfold handle_generate_csv in H.
    destruct (extract_numbers_from_text text) as [nums|]; [|discriminate].
    cbn [obind] in H.
    destruct nums as [|q nums]; injection H as <-; eexists; reflexivity.
  - rewrite (Hcalc E) in H. unfold handle_calculate in H.
    destruct (result_of (safe_eval _ _ _ _)); [|discriminate].
    injection H as <-. eexists. reflexivity.
  - rewrite (Hunk E) in H. injection H as <-. eexists. reflexivity.
Qed.

Lemma command_loop_fault (lines : list str) (e : exc) :
  snd (loop lines) = Faulted (Uncaught e) ->
  exists before l after,
    lines = before ++ l :: after
    /\ is_quit (strip l) = false
    /\ agent (strip l) = Raise e
    /\ Forall (fun x => is_quit (strip x) = false
                        /\ exists r, agent (strip x) = Return r) before.
Proof.
  induction lines as [|l lines IH]; cbn [command_loop].
  - discriminate.
  - destruct (is_quit (strip l)) eqn:Hq; [discriminate|].
    destruct (agent (strip l)) as [resp|ex] eqn:Ha.
    + destruct (show_response_total _ _ Ha) as [out Hout]. rewrite Hout.
      destruct (loop lines) as [outs fin]. cbn [snd] in *. intros Hfin.
      destruct (IH Hfin) as (before & l' & after & -> & Hq' & Hr & Hall).
      exists (l :: before), l', after. repeat split; auto.
      constructor; [|exact Hall]. split; [exact Hq | eauto].
    + cbn [snd]. intros [= ->].
      exists [], l, lines. repeat split; auto.
Qed.
End CommandLoopFacts.

(** X12: the command loop stops at the first line that reads [quit]
    or [exit], whatever its case and the blanks around it: the lines
    after it are never read, so what is printed and how the run ends
    do not depend on them, and the run does not end on the end of
    input. *)
Theorem X12_quit_stops_the_loop :
  forall (ast_parse : str -> outcome expr) math_module real_pow
         (before after : list str) (q : str),
    is_quit (strip q) = true ->
    main ast_parse math_module real_pow (before ++ q :: after)
    = main ast_parse math_module real_pow (before ++ [q])
    /\ snd (main ast_parse math_module real_pow (before ++ q :: after))
       <> Faulted EOFError.
Proof.
  intros ast_parse math_module real_pow before after q Hq.
  unfold main. rewrite (command_loop_quit _ _ _ before after q Hq).
  split; [reflexivity|].
  pose proof (command_loop_ends ast_parse math_module real_pow before q Hq)
    as H.
  destruct (command_loop ast_parse math_module real_pow (before ++ [q])).
  exact H.
Qed.

Lemma X12_quit_stops_the_loop_witness :
  is_quit (strip $"  QUIT ") = true
  /\ main py_parse math_exact exact_pow
          [$"calculate 2 + 3 * 4"; $"  QUIT "; $"calculate 1/0"]
     = main py_parse math_exact exact_pow
            [$"calculate 2 + 3 * 4"; $"  QUIT "].
Proof.
  assert (H : is_quit (strip $"  QUIT ") = true) by (vm_compute; reflexivity).
  split; [exact H|].
  exact (proj1 (X12_quit_stops_the_loop py_parse math_exact exact_pow
                  [$"calculate 2 + 3 * 4"] [$"calculate 1/0"] $"  QUIT " H)).
Defined.

(** X13: the command loop catches nothing and fails on nothing of its
    own: when a run ends on an uncaught exception, that exception was
    raised by [agent_process] on one of the lines, every line before it
    was answered with a record, and no line up to it was [quit] or
    [exit].  In particular reading [intent], [status] and [csv] from a
    returned record never fails. *)
Theorem X13_loop_faults_come_from_the_agent :
  forall (ast_parse : str -> outcome expr) math_module real_pow
         (lines : list str) (e : exc),
    snd (main ast_parse math_module real_pow lines) = Faulted (Uncaught e) ->
    exists before l after,
      lines = before ++ l :: after
      /\ is_quit (strip l) = false
      /\ agent_process ast_parse math_module real_pow (strip l) = Raise e
      /\ Forall (fun x =>
                   is_quit (strip x) = false
                   /\ exists r,
                       agent_process ast_parse math_module real_pow (strip x)
                       = Return r) before.
Proof.
  intros ast_parse math_module real_pow lines e H.
  apply command_loop_fault. unfold main in H.
  destruct (command_loop ast_parse math_module real_pow lines). exact H.
Qed.

Lemma X13_loop_faults_come_from_the_agent_witness :
  snd (main py_parse math_exact exact_pow
            [$"mean of 5, 10, 15"; $"calculate 1/0"; $"quit"])
  = Faulted (Uncaught (ZeroDivisionError "division by zero"))
  /\ exists before l after,
      [$"mean of 5, 10, 15"; $"calculate 1/0"; $"quit"]
      = before ++ l :: after
      /\ agent_process py_parse math_exact exact_pow (strip l)
         = Raise (ZeroDivisionError "division by zero").
Proof.
  assert (H : snd (main py_parse math_exact exact_pow
                        [$"mean of 5, 10, 15"; $"calculate 1/0"; $"quit"])
              = Faulted (Uncaught (ZeroDivisionError "division by zero")))
    by (vm_compute; reflexivity).
  split; [exact H|].
  destruct (X13_loop_faults_come_from_the_agent
              py_parse math_exact exact_pow _ _ H)
    as (before & l & after & Hl & _ & Hr & _).
  exists before, l, after. auto.
Defined.

(** ** The simple calculator *)

(** X14: when the option that is entered is an integer other than 1,
    2, 3 and 4, the simple calculator asks for no numbers, prints
    [Invalid input] and then fails on its last line with a
    [NameError], because [result] was never assigned; no result is
    printed. *)
Theorem X14_invalid_option_fails_with_name_error :
  forall (choice : str) (rest : list str) (option : Z),
    py_int choice = Return option ->
    (option < 1 \/ 4 < option) ->
    simple_calculator (choice :: rest)
    = (menu ++ [Prompt "Choose and operation: "; PrintLine "Invalid input"],
       Faulted (NameError "result")).
Proof.
  intros choice rest option Hint Hrange.
  unfold simple_calculator, read_int. rewrite Hint.
  assert (E : existsb (Z.eqb option) [1; 2; 3; 4] = false).
  { cbn [existsb].
    destruct (Z.eqb_spec option 1), (Z.eqb_spec option 2),
      (Z.eqb_spec option 3), (Z.eqb_spec option 4);
      solve [reflexivity | exfalso; lia]. }
  rewrite E. reflexivity.
Qed.

Lemma X14_invalid_option_fails_with_name_error_witness :
  py_int $" 7" = Return 7
  /\ simple_calculator [$" 7"; $"1"; $"2"]
     = (menu ++ [Prompt "Choose and operation: "; PrintLine "Invalid input"],
        Faulted (NameError "result")).
Proof.
  assert (H : py_int $" 7" = Return 7) by (vm_compute; reflexivity).
  split; [exact H|].
  apply (X14_invalid_option_fails_with_name_error $" 7" [$"1"; $"2"] 7 H).
  right. lia.
Defined.



(** ** The shape of the CSV text *)

Lemma count_char_app (c : ascii) (a b : str) :
  count_char c (a ++ b) = (count_char c a + count_char c b)%nat.
Proof. unfold count_char. now rewrite filter_app, length_app. Qed.

Lemma count_char_numeric (c : ascii) (s : str) :
  numeric_char c = false -> forallb numeric_char s = true ->
  count_char c s = 0%nat.
Proof.
  intros Hc. unfold count_char. induction s as [|x s IH]; simpl.
  - reflexivity.
  - intros H. apply andb_true_iff in H as [Hx Hs].
    destruct (ascii_eqb c x) eqn:E.
    + apply ascii_eqb_eq in E. subst x. congruence.
    + now apply IH.
Qed.

Lemma count_char_row (c : ascii) (iv : Z * Q) :
  numeric_char c = false ->
  count_char c (csv_row iv)
  = count_char c ([","%char; CR; LF]).
Proof.
  intros Hc. unfold csv_row.
  rewrite count_char_app. change (","%char :: float_repr (snd iv) ++ [CR; LF])
    with ([","%char] ++ float_repr (snd iv) ++ [CR; LF]).
  rewrite !count_char_app.
  rewrite (count_char_numeric c _ Hc (int_str_numeric (fst iv))).
  rewrite (count_char_numeric c _ Hc (float_repr_numeric (snd iv))).
  change [","%char; CR; LF] with ([","%char] ++ [CR; LF]).
  rewrite count_char_app. lia.
Qed.

Lemma count_char_rows (c : ascii) (rows : list (Z * Q)) :
  numeric_char c = false ->
  count_char c (flat_map csv_row rows)
  = (length rows * count_char c [","%char; CR; LF])%nat.
Proof.
  intros Hc. induction rows as [|iv rows IH]; [reflexivity|].
  cbn [flat_map length]. rewrite count_char_app, IH, count_char_row by auto.
  lia.
Qed.

(** X16: the CSV text that the generate_csv handler returns for a text
    with [n] numbers has [n + 1] rows of two columns: it holds exactly
    [n + 1] line feeds, [n + 1] carriage returns and [n + 1] commas,
    and no quote character, since no number needs quoting. *)
Theorem X16_csv_is_a_two_column_table :
  forall text,
    has_digit text = true ->
    exists nums out,
      extract_numbers_from_text text = Return nums
      /\ handle_generate_csv text
         = Return [ ("status", FStr "ok"); ("intent", FStr "generate_csv");
                    ("csv", FStr (string_of_list_ascii out)) ]
      /\ count_char LF out = S (length nums)
      /\ count_char CR out = S (length nums)
      /\ count_char ","%char out = S (length nums)
      /\ count_char quote_char out = 0%nat.
Proof.
  intros text Hd.
  destruct (extract_numbers_total text) as (nums & Hn & Hiff).
  exists nums, ($"index,value" ++ [CR; LF]
                ++ flat_map csv_row (enumerate 1 nums)).
  split; [exact Hn|]. split.
  - unfold handle_generate_csv. rewrite Hn. cbn [obind].
    destruct nums as [|q nums].
    + destruct Hiff as [Hiff _]. rewrite (Hiff eq_refl) in Hd. discriminate.
    + rewrite written_rows. reflexivity.
  - rewrite !app_assoc, !count_char_app, !count_char_rows by reflexivity.
    rewrite enumerate_length.
    repeat split; vm_compute count_char; lia.
Qed.

Lemma X16_csv_is_a_two_column_table_witness :
  has_digit $"save 1.5 and -2" = true
  /\ exists nums out,
      extract_numbers_from_text $"save 1.5 and -2" = Return nums
      /\ handle_generate_csv $"save 1.5 and -2"
         = Return [ ("status", FStr "ok"); ("intent", FStr "generate_csv");
                    ("csv", FStr (string_of_list_ascii out)) ]
      /\ count_char LF out = S (length nums).
Proof.
  assert (H : has_digit $"save 1.5 and -2" = true) by reflexivity.
  split; [exact H|].
  destruct (X16_csv_is_a_two_column_table $"save 1.5 and -2" H)
    as (nums & out & Hn & Hcsv & Hlf & _).
  exists nums, out. auto.
Defined.
